(** * SpatialPy SSA-SDPD engine: neighbour lists and pairwise coefficients

    A shallow embedding of [src/particle.cpp] (the particle system, the
    distance helpers, [add_to_neighbor_list] and [find_neighbors]) over
    Rocq's primitive binary64 floats, which are the C++ [double] of the
    source under round-to-nearest, and the properties the specification
    states about them. *)

From Stdlib Require Import Ascii String ZArith List Bool Lia Sorted Permutation.
From Stdlib Require Import Reals Lra Machin.
From Stdlib Require Import Floats.
Import ListNotations.

Set Implicit Arguments.

(* ================================================================== *)
(** * The particle engine ([namespace Spatialpy])                      *)
(* ================================================================== *)

Module Spatialpy.

Local Open Scope float_scope.

(** Decimal literals denote the nearest [double], as they do in C++. *)
#[local] Set Warnings "-inexact-float".

(** [M_PI] of [<math.h>]. *)
Definition M_PI : float := 3.14159265358979323846.

(** ** Data model *)

(** [double x[3]]: a fixed array of three coordinates. *)
Record double3 : Type := mkDouble3 { e0 : float; e1 : float; e2 : float }.

(** [particle.hpp] is not part of the sources; the records below hold the
    members that [particle.cpp] reads and writes.  An edge of a neighbour
    list stores the neighbour by value, as [neighbors.push({neighbor, r,
    dWdr, D_i_j})] does. *)
Inductive Particle : Type := mkParticle {
  id : Z;
  x : double3;
  v : double3;
  mass : float;
  rho : float;
  nu : float;
  solidTag : Z;
  neighbors : list NeighborNode
}
with NeighborNode : Type := mkNeighborNode {
  data : Particle;
  dist : float;
  dWdr : float;
  D_i_j : float
}.

(** The particle system, over the type [T] of its k-d tree. *)
Record ParticleSystem (T : Type) : Type := mkParticleSystem {
  dimension : Z;
  boundary_conditions : list Ascii.ascii;
  static_domain : Z;
  num_stoch_species : Z;
  num_stoch_rxns : Z;
  num_chem_species : Z;
  num_chem_rxns : Z;
  num_types : Z;
  gravity : list float;
  num_data_fn : Z;
  kdTree_initialize : bool;
  h : float;
  kdTree : T;
  particles : list Particle;
  x_index : list Particle
}.

(** ** Effects: standard output, [exit], undefined behaviour *)

Inductive printf_arg : Type :=
| ArgInt (i : Z)
| ArgDouble (d : float).

(** One [printf] call: its format string and its arguments. *)
Definition printf_call : Type := (string * list printf_arg)%type.
Definition stdout : Type := list printf_call.

(** What a call does: it returns a value, or the process exits with a
    status, or the behaviour is undefined (a vector indexed out of range).
    In the first two cases [out] is what the call printed. *)
Inductive outcome (A : Type) : Type :=
| Returned (a : A) (out : stdout)
| Exited (status : Z) (out : stdout)
| Undefined.
Arguments Exited {A} status out.
Arguments Undefined {A}.

Definition bind {A B : Type} (m : outcome A) (f : A -> outcome B) : outcome B :=
  match m with
  | Returned a o =>
      match f a with
      | Returned b o' => Returned b (o ++ o')
      | Exited s o' => Exited s (o ++ o')
      | Undefined => Undefined
      end
  | Exited s o => Exited s o
  | Undefined => Undefined
  end.

Notation "x <- m ;; k" := (bind m (fun x => k))
  (at level 61, m at next level, right associativity).

(** ** Constructors *)

(** [ParticleSystem::ParticleSystem(num_types, num_chem_species,
    num_chem_rxns, num_stoch_species, num_stoch_rxns, num_data_fn)].
    [storage] is the object before the body runs: a member the body does
    not assign keeps the value it has there.  Inside the body each name
    [num_...] denotes the parameter, which hides the member of the same
    name, so [num_types = num_types;] assigns the parameter to itself.
    The two vectors are default-constructed, hence empty. *)
Definition ParticleSystem_ctor {T : Type} (storage : ParticleSystem T)
    (num_types' num_chem_species' num_chem_rxns'
     num_stoch_species' num_stoch_rxns' num_data_fn' : Z) : ParticleSystem T :=
  let num_stoch_species' := num_stoch_species' in
  let num_stoch_rxns' := num_stoch_rxns' in
  let num_chem_species' := num_chem_species' in
  let num_chem_rxns' := num_chem_rxns' in
  let num_types' := num_types' in
  let num_data_fn' := num_data_fn' in
  {| dimension := 3;
     boundary_conditions := ["n"; "n"; "n"]%char;
     static_domain := 0;
     num_stoch_species := num_stoch_species storage;
     num_stoch_rxns := num_stoch_rxns storage;
     num_chem_species := num_chem_species storage;
     num_chem_rxns := num_chem_rxns storage;
     num_types := num_types storage;
     gravity := [0; 0; 0];
     num_data_fn := num_data_fn storage;
     kdTree_initialize := false;
     h := h storage;
     kdTree := kdTree storage;
     particles := [];
     x_index := [] |}.

(** [Particle::Particle(int id)]: [id = id;] assigns the parameter to
    itself; the neighbour list is default-constructed. *)
Definition Particle_ctor (storage : Particle) (id' : Z) : Particle :=
  let id' := id' in
  {| id := id storage;
     x := mkDouble3 0 0 0;
     v := mkDouble3 0 0 0;
     mass := 1;
     rho := 1;
     nu := 0.01;
     solidTag := 0;
     neighbors := [] |}.

(** ** Distances *)

Definition particle_dist (me p2 : Particle) : float :=
  let a := e0 (x me) - e0 (x p2) in
  let b := e1 (x me) - e1 (x p2) in
  let c := e2 (x me) - e2 (x p2) in
  PrimFloat.sqrt (a * a + b * b + c * c).

Definition particle_dist_sqrd (me p2 : Particle) : float :=
  let a := e0 (x me) - e0 (x p2) in
  let b := e1 (x me) - e1 (x p2) in
  let c := e2 (x me) - e2 (x p2) in
  a * a + b * b + c * c.

(** ** The spatial index (ANN) *)

(** The ANN library is not part of the sources.  [ANNpointSet] is its search
    interface as [particle.cpp] uses it: [nPoints()] and
    [annkFRSearch(q, sqRad, k, nn_idx, dd)], which returns a count and fills
    the two caller-allocated arrays of length [k]; the record holds the
    returned count and the arrays after the call. *)
Record ANNresult : Type := mkANNresult {
  pts_in_range : Z;
  nn_idx : list Z;
  dists : list float
}.

Class ANNpointSet (T : Type) : Type := {
  nPoints : T -> Z;
  annkFRSearch : T -> list float -> float -> Z -> ANNresult
}.

Section Engine.

(** Constants of [ANN.h] and the global [debug_flag], declared outside the
    sources. *)
Variable ANN_DIST_INF : float.
Variable ANN_NULL_IDX : Z.
Variable debug_flag : Z.

Context {T : Type} `{ANNpointSet T}.

(** ** Pairwise interaction builder *)

(** [neighbors.push(e)]: the edge is added behind those already there. *)
Definition push_neighbor (me : Particle) (e : NeighborNode) : Particle :=
  {| id := id me; x := x me; v := v me; mass := mass me; rho := rho me;
     nu := nu me; solidTag := solidTag me;
     neighbors := neighbors me ++ [e] |}.

(** [int Particle::add_to_neighbor_list(Particle neighbor,
    ParticleSystem system, double r2)].  The result is the returned [int]
    and the particle after the call. *)
Definition add_to_neighbor_list (me neighbor : Particle)
    (system : ParticleSystem T) (r2 : float) : outcome (Z * Particle) :=
  let r2 := if r2 =? ANN_DIST_INF then particle_dist_sqrd me neighbor else r2 in
  let r := PrimFloat.sqrt r2 in
  if h system <? r then Returned (0%Z, me) [] else
  let h := h system in
  let R := r / h in
  let alpha := 105 / (16 * M_PI * h * h * h) in
  let dWdr := alpha * ((-12) * r / (h * h)) * ((1 - R) * (1 - R)) in
  let ih := 1.0 / h in
  let ihsq := ih * ih in
  let dhr := h - r in
  let wfd := (-25.066903536973515383e0) * dhr * dhr * ihsq * ihsq * ihsq * ih in
  let D_i_j := (-2.0) * (mass me * mass neighbor) / (mass me + mass neighbor)
               * (rho me + rho neighbor) / (rho me * rho neighbor)
               * r2 * wfd / (r2 + 0.01 * h * h) in
  if is_nan D_i_j then
    Exited 1
      [ ("Got NaN calculating D_i_j for me=%i, neighbor=%i\n"%string,
           [ArgInt (id me); ArgInt (id neighbor)]);
        ("r=%e "%string, [ArgDouble r]);
        ("h=%e "%string, [ArgDouble h]);
        ("alpha=%e "%string, [ArgDouble alpha]);
        ("dWdr=%e "%string, [ArgDouble dWdr]);
        ("mass=%e "%string, [ArgDouble (mass me)]);
        ("rho=%e "%string, [ArgDouble (rho me)]);
        ("n->mass=%e "%string, [ArgDouble (mass neighbor)]);
        ("n->rho=%e "%string, [ArgDouble (rho neighbor)]) ]
  else
    Returned (1%Z, push_neighbor me (mkNeighborNode neighbor r dWdr D_i_j)) [].

(** ** Neighbour search *)

Definition get_k__approx (system : ParticleSystem T) : Z :=
  nPoints (kdTree system).

Definition get_k__exact (queryPt : list float) (dist : float)
    (system : ParticleSystem T) : Z :=
  let k := 0%Z in
  pts_in_range (annkFRSearch (kdTree system) queryPt dist k).

(** [system.particles[i]]: reading outside the vector is undefined. *)
Definition particles_at (system : ParticleSystem T) (i : Z) : option Particle :=
  if (i <? 0)%Z then None else nth_error (particles system) (Z.to_nat i).

(** The loop [for (i = 0; i < k && nn_idx[i] != ANN_NULL_IDX; i++)] of
    [find_neighbors], over the entries [i .. k-1] of the two arrays. *)
Fixpoint find_neighbors_loop (me : Particle) (system : ParticleSystem T)
    (nn_idx : list Z) (dists : list float) : outcome Particle :=
  match nn_idx, dists with
  | idx :: nn_idx', d :: dists' =>
      if (idx =? ANN_NULL_IDX)%Z then Returned me [] else
      match particles_at system idx with
      | None => Undefined
      | Some neighbor =>
          added <- add_to_neighbor_list me neighbor system d ;;
          let me := snd added in
          _ <- (if (2 <? debug_flag)%Z then
                  Returned tt
                    [ ("find_neighbors(%i) forward found %i dist: %e    dx: %e   dy: %e   dz: %e\n"%string,
                       [ArgInt (id me); ArgInt (id neighbor);
                        ArgDouble (PrimFloat.sqrt d);
                        ArgDouble (e0 (x me) - e0 (x neighbor));
                        ArgDouble (e1 (x me) - e1 (x neighbor));
                        ArgDouble (e2 (x me) - e2 (x neighbor))]) ]
                else Returned tt []) ;;
          find_neighbors_loop me system nn_idx' dists'
      end
  | _, _ => Returned me []
  end.

(** The query point: the first [dimension] coordinates of [x].  Reading
    [x[i]] for [i >= 3] is outside the array. *)
Definition query_point (me : Particle) (system : ParticleSystem T)
  : option (list float) :=
  if (3 <? dimension system)%Z then None
  else Some (firstn (Z.to_nat (dimension system))
                    [e0 (x me); e1 (x me); e2 (x me)]).

(** [void Particle::find_neighbors(ParticleSystem system, bool use_exact_k)].
    The result is the particle after the call. *)
Definition find_neighbors (me : Particle) (system : ParticleSystem T)
    (use_exact_k : bool) : outcome Particle :=
  match query_point me system with
  | None => Undefined
  | Some queryPt =>
      let dist := h system * h system in
      let k := if use_exact_k then get_k__exact queryPt dist system
               else get_k__approx system in
      let found := annkFRSearch (kdTree system) queryPt dist k in
      find_neighbors_loop me system
        (firstn (Z.to_nat k) (nn_idx found))
        (firstn (Z.to_nat k) (dists found))
  end.

(** ** What an edge stores, as functions of the pair *)

(** The squared distance the builder works with: the one it is given, or
    the one it measures when it is given the marker. *)
Definition measured_r2 (me neighbor : Particle) (r2 : float) : float :=
  if r2 =? ANN_DIST_INF then particle_dist_sqrd me neighbor else r2.

(** The kernel derivative, with [alpha = 105 / (16 pi h^3)]. *)
Definition dWdr_closed_form (h r : float) : float :=
  let alpha := 105 / (16 * M_PI * h * h * h) in
  alpha * ((-12) * r / (h * h)) * ((1 - r / h) * (1 - r / h)).

(** The kernel derivative over [r], as the coefficient uses it. *)
Definition wfd_closed_form (h r : float) : float :=
  (-25.066903536973515383e0) * (h - r) * (h - r)
  * (1.0 / h * (1.0 / h)) * (1.0 / h * (1.0 / h)) * (1.0 / h * (1.0 / h))
  * (1.0 / h).

(** The diffusion coefficient: masses, densities, kernel derivative and
    the term [0.01 h^2] added to [r^2] in the denominator. *)
Definition D_i_j_closed_form (mi mj rhoi rhoj h r2 : float) : float :=
  (-2.0) * (mi * mj) / (mi + mj) * (rhoi + rhoj) / (rhoi * rhoj)
  * r2 * wfd_closed_form h (PrimFloat.sqrt r2) / (r2 + 0.01 * h * h).

(** The edge of an included pair. *)
Definition edge_of (me neighbor : Particle) (system : ParticleSystem T)
    (r2 : float) : NeighborNode :=
  let r2 := measured_r2 me neighbor r2 in
  let r := PrimFloat.sqrt r2 in
  {| data := neighbor;
     dist := r;
     dWdr := dWdr_closed_form (h system) r;
     D_i_j := D_i_j_closed_form (mass me) (mass neighbor)
                (rho me) (rho neighbor) (h system) r2 |}.

(** What the NaN guard prints before [exit(1)]. *)
Definition nan_diagnostics (me neighbor : Particle) (r h alpha dWdr : float)
  : stdout :=
  [ ("Got NaN calculating D_i_j for me=%i, neighbor=%i\n"%string,
       [ArgInt (id me); ArgInt (id neighbor)]);
    ("r=%e "%string, [ArgDouble r]);
    ("h=%e "%string, [ArgDouble h]);
    ("alpha=%e "%string, [ArgDouble alpha]);
    ("dWdr=%e "%string, [ArgDouble dWdr]);
    ("mass=%e "%string, [ArgDouble (mass me)]);
    ("rho=%e "%string, [ArgDouble (rho me)]);
    ("n->mass=%e "%string, [ArgDouble (mass neighbor)]);
    ("n->rho=%e "%string, [ArgDouble (rho neighbor)]) ].

(** ** The contract of the fixed-radius search *)

(** An array of length [k] holding [l], cut or filled up with [fill]. *)
Definition pad {A : Type} (k : Z) (fill : A) (l : list A) : list A :=
  firstn (Z.to_nat k) (l ++ repeat fill (Z.to_nat k)).

(** "Search for k nearest neighbors in the fixed squared radius dist from
    queryPt": the points in range form one list [annFRhits], nearest first
    and whatever [k] is; the call returns their number and puts the first
    [k] of them into the arrays, the entries left over holding
    [ANN_NULL_IDX] and [ANN_DIST_INF]. *)
Class ANNfixedRadius : Prop := {
  annFRhits_exist :
    forall (t : T) (q : list float) (sqRad : float),
    exists hits : list (Z * float),
      (Z.of_nat (length hits) <= nPoints t)%Z /\
      forall k : Z,
        annkFRSearch t q sqRad k
        = {| pts_in_range := Z.of_nat (length hits);
             nn_idx := pad k ANN_NULL_IDX (map fst hits);
             dists := pad k ANN_DIST_INF (map snd hits) |}
}.

(** ** Sequences of calls on the particles of a system *)

(** A call made on [system.particles[i]], the system itself being the
    [system] argument. *)
Inductive call : Type :=
| call_add_to_neighbor_list (i : nat) (neighbor : Particle) (r2 : float)
| call_find_neighbors (i : nat) (use_exact_k : bool).

Fixpoint replace_nth {A : Type} (l : list A) (i : nat) (a : A) : list A :=
  match l, i with
  | [], _ => []
  | _ :: l', O => a :: l'
  | b :: l', S i' => b :: replace_nth l' i' a
  end.

Definition set_particle (system : ParticleSystem T) (i : nat) (p : Particle)
  : ParticleSystem T :=
  {| dimension := dimension system;
     boundary_conditions := boundary_conditions system;
     static_domain := static_domain system;
     num_stoch_species := num_stoch_species system;
     num_stoch_rxns := num_stoch_rxns system;
     num_chem_species := num_chem_species system;
     num_chem_rxns := num_chem_rxns system;
     num_types := num_types system;
     gravity := gravity system;
     num_data_fn := num_data_fn system;
     kdTree_initialize := kdTree_initialize system;
     h := h system;
     kdTree := kdTree system;
     particles := replace_nth (particles system) i p;
     x_index := x_index system |}.

Definition step (system : ParticleSystem T) (c : call)
  : outcome (ParticleSystem T) :=
  match c with
  | call_add_to_neighbor_list i neighbor r2 =>
      match nth_error (particles system) i with
      | None => Undefined
      | Some me =>
          added <- add_to_neighbor_list me neighbor system r2 ;;
          Returned (set_particle system i (snd added)) []
      end
  | call_find_neighbors i use_exact_k =>
      match nth_error (particles system) i with
      | None => Undefined
      | Some me =>
          me' <- find_neighbors me system use_exact_k ;;
          Returned (set_particle system i me') []
      end
  end.

Fixpoint run (system : ParticleSystem T) (calls : list call)
  : outcome (ParticleSystem T) :=
  match calls with
  | [] => Returned system []
  | c :: calls' => system' <- step system c ;; run system' calls'
  end.

(** Invariant (1) of the data model. *)
Definition edges_within (hh : float) (p : Particle) : Prop :=
  Forall (fun e : NeighborNode => (dist e <=? hh) = true) (neighbors p).

Definition all_edges_within (system : ParticleSystem T) : Prop :=
  Forall (edges_within (h system)) (particles system).

End Engine.

(** ** A brute-force point set *)

(** A point set that keeps its points in an array and measures every one
    of them: the points within the squared radius are kept nearest first (a
    point goes behind those at the same distance), and the arrays receive
    the first [k] of them.  It serves as the index of the examples. *)
Module BruteForce.

Definition annDist (q p : list float) : float :=
  fold_left (fun acc qp => acc + (fst qp - snd qp) * (fst qp - snd qp))
            (combine q p) 0.

Fixpoint mk_insert (kv : float) (inf : Z) (mk : list (Z * float))
  : list (Z * float) :=
  match mk with
  | [] => [(inf, kv)]
  | (i, d) :: mk' =>
      if kv <? d then (inf, kv) :: mk else (i, d) :: mk_insert kv inf mk'
  end.

Fixpoint hits_from (q : list float) (sqRad : float) (pts : list (list float))
    (i : Z) (mk : list (Z * float)) : list (Z * float) :=
  match pts with
  | [] => mk
  | p :: pts' =>
      let d := annDist q p in
      hits_from q sqRad pts' (i + 1)
                (if d <=? sqRad then mk_insert d i mk else mk)
  end.

Definition hits (pts : list (list float)) (q : list float) (sqRad : float)
  : list (Z * float) :=
  hits_from q sqRad pts 0 [].

Definition pointSet (ANN_DIST_INF : float) (ANN_NULL_IDX : Z)
  : ANNpointSet (list (list float)) :=
  {| nPoints := fun pts => Z.of_nat (length pts);
     annkFRSearch := fun pts q sqRad k =>
       {| pts_in_range := Z.of_nat (length (hits pts q sqRad));
          nn_idx := pad k ANN_NULL_IDX (map fst (hits pts q sqRad));
          dists := pad k ANN_DIST_INF (map snd (hits pts q sqRad)) |} |}.

End BruteForce.

(** ** Reference data *)

(** [ANN_DIST_INF] is [DBL_MAX] and [ANN_NULL_IDX] is [-1] in [ANN.h]. *)
Definition ANN_DBL_MAX : float := 0x1.fffffffffffffp+1023.
Definition ANN_NULL : Z := (-1)%Z.

(** A particle as [Particle(id)] leaves it, at [(px, 0, 0)] and with the
    given mass and density. *)
Definition particle_at (i : Z) (px m d : float) : Particle :=
  {| id := i; x := mkDouble3 px 0 0; v := mkDouble3 0 0 0;
     mass := m; rho := d; nu := 0.01; solidTag := 0; neighbors := [] |}.

(** A system of support radius [hh] over the given particles, indexed by
    the brute-force point set. *)
Definition system_of (hh : float) (ps : list Particle)
  : ParticleSystem (list (list float)) :=
  {| dimension := 3;
     boundary_conditions := ["n"; "n"; "n"]%char;
     static_domain := 0;
     num_stoch_species := 0; num_stoch_rxns := 0;
     num_chem_species := 0; num_chem_rxns := 0;
     num_types := 0;
     gravity := [0; 0; 0];
     num_data_fn := 0;
     kdTree_initialize := true;
     h := hh;
     kdTree := map (fun p => [e0 (x p); e1 (x p); e2 (x p)]) ps;
     particles := ps;
     x_index := ps |}.

(** ** The documented formulas over the reals *)

Module Documented.

Local Open Scope R_scope.

(** The real number a [double] denotes (0 for infinities and NaN). *)
Definition F2R (f : float) : R :=
  match Prim2SF f with
  | S754_finite s m e => IZR (cond_Zopp s (Z.pos m)) * powerRZ 2 e
  | _ => 0
  end.

(** Derivative of the kernel [alpha (1 + 3R)(1 - R)^3], [R = r/h],
    [alpha = 105 / (16 pi h^3)]. *)
Definition dWdr (h r : R) : R :=
  105 / (16 * PI * h ^ 3) * (-12 * r / h ^ 2) * (1 - r / h) ^ 2.

(** Eq. 28: the coefficient from the masses, the densities, the kernel
    derivative and [r^2 + 0.01 h^2]. *)
Definition D_i_j (mi mj rhoi rhoj h r dWdr : R) : R :=
  -2 * (mi * mj) / (mi + mj) * (rhoi + rhoj) / (rhoi * rhoj)
  * (r * dWdr) / (r ^ 2 + 0.01 * h ^ 2).

(** Agreement within a relative tolerance. *)
Definition within (tol computed expected : R) : Prop :=
  Rabs (computed - expected) <= tol * Rabs expected.

End Documented.

(** ** The arithmetic of [add_to_neighbor_list] as expressions *)

(** The statements of [add_to_neighbor_list] between the radius test and
    the NaN guard, one expression for each local variable.  An expression is
    read in [double] arithmetic, which is what the code computes, and over
    the reals, where a literal stands for the number its [double] denotes. *)
Module Formula.

(** The inputs: [system.h], [r2] (after the marker test), [mass],
    [neighbor.mass], [rho] and [neighbor.rho]. *)
Inductive var : Type := Vh | Vr2 | Vmass | Vnmass | Vrho | Vnrho.

Inductive expr : Type :=
| Lit (c : float)
| Var (v : var)
| Add (a b : expr)
| Sub (a b : expr)
| Mul (a b : expr)
| Div (a b : expr)
| Sqrt (a : expr).

Declare Scope expr_scope.
Delimit Scope expr_scope with expr.
Bind Scope expr_scope with expr.
Notation "a + b" := (Add a b) : expr_scope.
Notation "a - b" := (Sub a b) : expr_scope.
Notation "a * b" := (Mul a b) : expr_scope.
Notation "a / b" := (Div a b) : expr_scope.

(** The value in [double] arithmetic. *)
Fixpoint eval_double (env : var -> float) (e : expr) : float :=
  match e with
  | Lit c => c
  | Var v => env v
  | Add a b => eval_double env a + eval_double env b
  | Sub a b => eval_double env a - eval_double env b
  | Mul a b => eval_double env a * eval_double env b
  | Div a b => eval_double env a / eval_double env b
  | Sqrt a => PrimFloat.sqrt (eval_double env a)
  end.

(** The value over the reals. *)
Fixpoint eval_real (env : var -> R) (e : expr) : R :=
  match e with
  | Lit c => Documented.F2R c
  | Var v => env v
  | Add a b => eval_real env a + eval_real env b
  | Sub a b => eval_real env a - eval_real env b
  | Mul a b => eval_real env a * eval_real env b
  | Div a b => eval_real env a / eval_real env b
  | Sqrt a => R_sqrt.sqrt (eval_real env a)
  end%R.

(** [double r = sqrt(r2);] *)
Definition r_expr : expr := Sqrt (Var Vr2).

(** [double R = r / h;] *)
Definition R_expr : expr := (r_expr / Var Vh)%expr.

(** [double alpha = 105 / (16 * M_PI * h * h * h);] *)
Definition alpha_expr : expr :=
  (Lit 105 / (Lit 16 * Lit M_PI * Var Vh * Var Vh * Var Vh))%expr.

(** [double dWdr = alpha * (-12 * r / (h * h)) * ((1 - R)* (1 - R));] *)
Definition dWdr_expr : expr :=
  (alpha_expr * (Lit (-12) * r_expr / (Var Vh * Var Vh))
   * ((Lit 1 - R_expr) * (Lit 1 - R_expr)))%expr.

(** [double ih = 1.0 / h;] *)
Definition ih_expr : expr := (Lit 1.0 / Var Vh)%expr.

(** [double ihsq = ih * ih;] *)
Definition ihsq_expr : expr := (ih_expr * ih_expr)%expr.

(** [double dhr = h - r;] *)
Definition dhr_expr : expr := (Var Vh - r_expr)%expr.

(** [double wfd = -25.066903536973515383e0 * dhr * dhr * ihsq * ihsq * ihsq * ih;] *)
Definition wfd_expr : expr :=
  (Lit (-25.066903536973515383e0) * dhr_expr * dhr_expr
   * ihsq_expr * ihsq_expr * ihsq_expr * ih_expr)%expr.

(** [double D_i_j = -2.0*(mass*neighbor.mass)/(mass+neighbor.mass)
    *(rho+neighbor.rho)/(rho*neighbor.rho) * r2 * wfd / (r2+0.01*h*h);] *)
Definition D_i_j_expr : expr :=
  (Lit (-2.0) * (Var Vmass * Var Vnmass) / (Var Vmass + Var Vnmass)
   * (Var Vrho + Var Vnrho) / (Var Vrho * Var Vnrho)
   * Var Vr2 * wfd_expr / (Var Vr2 + Lit 0.01 * Var Vh * Var Vh))%expr.

(** The inputs of a call [me.add_to_neighbor_list(neighbor, system, r2)]. *)
Definition inputs (ANN_DIST_INF : float) (T : Type)
    (me neighbor : Particle) (system : ParticleSystem T) (r2 : float)
    (v : var) : float :=
  match v with
  | Vh => h system
  | Vr2 => measured_r2 ANN_DIST_INF me neighbor r2
  | Vmass => mass me
  | Vnmass => mass neighbor
  | Vrho => rho me
  | Vnrho => rho neighbor
  end.

End Formula.

End Spatialpy.

(* ================================================================== *)
(** * The event schedule                                               *)
(* ================================================================== *)

(** [simulate_rdme.h] declares the schedule ([ordered_list_t *heap]) and the
    functions that build it; their code is not part of the sources. *)
Module EventSchedule.

Local Open Scope float_scope.

(** Modelled from the spec: an entry of the schedule, "the next event time"
    of one entity (section 4.5, [(entity_id, time)]).  The time is a
    [double]; an entity that never fires is scheduled at infinity. *)
Record entry : Type := mkEntry { entity_id : Z; time : float }.

(** Modelled from the spec: the schedule of [ordered_list_t], missing from
    the sources, as the list of its entries in "strict ascending" order of
    scheduled time, "ties broken by insertion order". *)
Definition schedule : Type := list entry.

(** Modelled from the spec: the place of a new entry in [ordered_list_t],
    missing from the sources: in front of the first entry scheduled later,
    hence behind the entries of the same time. *)
Fixpoint insert_entry (e : entry) (s : schedule) : schedule :=
  match s with
  | [] => [e]
  | e' :: s' =>
      if time e <? time e' then e :: s else e' :: insert_entry e s'
  end.

(** Modelled from the spec: [insert(entity_id, time)] of section 4.5,
    missing from the sources. *)
Definition insert (i : Z) (t : float) (s : schedule) : schedule :=
  insert_entry (mkEntry i t) s.

(** Whether an entity has an entry, and the entries of the others. *)
Definition scheduled (i : Z) (s : list entry) : bool :=
  existsb (fun e => (entity_id e =? i)%Z) s.

Definition unschedule (i : Z) (s : list entry) : list entry :=
  filter (fun e => negb (entity_id e =? i)%Z) s.

(** Modelled from the spec: [update(entity_id, new_time)] of section 4.5,
    missing from the sources: the entry of a scheduled entity is taken out
    and put back at its new time; an entity that is not scheduled has no
    entry to update. *)
Definition update (i : Z) (t : float) (s : schedule) : schedule :=
  if scheduled i s then insert i t (unschedule i s) else s.

(** Modelled from the spec: [pop_min() -> (entity_id, time)] of section 4.5,
    missing from the sources: the first entry, and the schedule without
    it. *)
Definition pop_min (s : schedule) : option (entry * schedule) :=
  match s with
  | [] => None
  | e :: s' => Some (e, s')
  end.

(** The operations that fill the schedule, and a schedule built by a
    sequence of them from the empty one. *)
Inductive operation : Type :=
| Insert (i : Z) (t : float)
| Update (i : Z) (t : float).

Definition operation_time (o : operation) : float :=
  match o with Insert _ t => t | Update _ t => t end.

Definition apply (s : schedule) (o : operation) : schedule :=
  match o with
  | Insert i t => insert i t s
  | Update i t => update i t s
  end.

Definition schedule_of (ops : list operation) : schedule :=
  fold_left apply ops [].

(** ** The reference: the entries in the order they were inserted *)

(** The entries "currently inserted", oldest first; an update makes the
    entry of its entity the newest one. *)
Definition apply_reference (l : list entry) (o : operation) : list entry :=
  match o with
  | Insert i t => l ++ [mkEntry i t]
  | Update i t => if scheduled i l then unschedule i l ++ [mkEntry i t] else l
  end.

Definition inserted (ops : list operation) : list entry :=
  fold_left apply_reference ops [].

(** A scan for the smallest time that keeps the older of two entries of
    the same time. *)
Definition older_min (best : option entry) (e : entry) : option entry :=
  match best with
  | None => Some e
  | Some m => if time e <? time m then Some e else Some m
  end.

Definition earliest_min (l : list entry) : option entry :=
  fold_left older_min l None.

End EventSchedule.
(* ================================================================== *)
(** * IEEE-754 binary64 facts used by the engine                       *)
(* ================================================================== *)

(** The engine's arithmetic is plain [double] arithmetic.  The facts below
    are derived from the specification of the primitive operations
    ([FloatAxioms]) through [Prim2SF]. *)
Unset Implicit Arguments.

Module IEEE.

Local Open Scope float_scope.

Definition is_NaN (x : float) : Prop := Prim2SF x = S754_nan.

(** ** Comparison *)

Lemma SFcompare_refl (s : spec_float) :
  s <> S754_nan -> SFcompare s s = Some Eq.
Proof.
  destruct s as [b|b| |b m e]; intros Hs; try congruence.
  - reflexivity.
  - destruct b; reflexivity.
  - simpl. rewrite Z.compare_refl.
    assert (Hm : Pos.compare_cont Eq m m = Eq) by apply Pos.compare_refl.
    rewrite Hm. destruct b; reflexivity.
Qed.

Lemma SFcompare_nan_l (s : spec_float) : SFcompare S754_nan s = None.
Proof. reflexivity. Qed.

Lemma SFcompare_nan_r (s : spec_float) : SFcompare s S754_nan = None.
Proof. destruct s as [b|b| |b m e]; reflexivity. Qed.

Lemma SFcompare_antisym (x y : spec_float) (c : comparison) :
  SFcompare x y = Some c -> SFcompare y x = Some (CompOpp c).
Proof.
  destruct x as [bx|bx| |bx mx ex], y as [by_|by_| |by_ my ey];
    simpl; intros H; try discriminate;
    try (injection H as <-);
    try (destruct bx; try destruct by_; reflexivity);
    try (destruct by_; reflexivity).
  f_equal.
  destruct bx, by_; try reflexivity.
  all: assert (Hc : Pos.compare_cont Eq my mx
                   = CompOpp (Pos.compare_cont Eq mx my))
    by (rewrite Pos.compare_cont_antisym; reflexivity).
  all: rewrite (Z.compare_antisym ex ey);
    destruct (ex ?= ey)%Z eqn:E; simpl; try reflexivity;
    rewrite Hc; destruct (Pos.compare_cont Eq mx my); reflexivity.
Qed.

Lemma SFcompare_total (x y : spec_float) :
  x <> S754_nan -> y <> S754_nan -> exists c, SFcompare x y = Some c.
Proof.
  destruct x as [bx|bx| |bx mx ex], y as [by_|by_| |by_ my ey];
    intros Hx Hy; try congruence; simpl; eexists; reflexivity.
Qed.

Lemma is_nan_spec (x : float) : is_nan x = true <-> is_NaN x.
Proof.
  unfold is_nan, is_NaN. rewrite FloatAxioms.eqb_spec. unfold SFeqb.
  split.
  - intros H. destruct (Prim2SF x) as [b|b| |b m e] eqn:E; try reflexivity;
      rewrite SFcompare_refl in H by discriminate; discriminate.
  - intros ->. reflexivity.
Qed.

Lemma is_nan_false (x : float) : is_nan x = false <-> ~ is_NaN x.
Proof.
  rewrite <- is_nan_spec. destruct (is_nan x); split; intros; congruence.
Qed.

Lemma eqb_refl (x : float) : is_nan x = false -> (x =? x) = true.
Proof. unfold is_nan. destruct (x =? x); simpl; congruence. Qed.

Lemma ltb_true_not_nan (x y : float) :
  (x <? y) = true -> is_nan x = false /\ is_nan y = false.
Proof.
  rewrite FloatAxioms.ltb_spec. unfold SFltb. intros H.
  split; apply is_nan_false; intros Hn; red in Hn; rewrite Hn in H.
  - rewrite SFcompare_nan_l in H. discriminate.
  - rewrite SFcompare_nan_r in H. discriminate.
Qed.

Lemma leb_true_not_nan (x y : float) :
  (x <=? y) = true -> is_nan x = false /\ is_nan y = false.
Proof.
  rewrite FloatAxioms.leb_spec. unfold SFleb. intros H.
  split; apply is_nan_false; intros Hn; red in Hn; rewrite Hn in H.
  - rewrite SFcompare_nan_l in H. discriminate.
  - rewrite SFcompare_nan_r in H. discriminate.
Qed.

(** On numbers, "not greater" is "less or equal". *)
Lemma not_gt_le (x y : float) :
  is_nan x = false -> is_nan y = false ->
  (y <? x) = false -> (x <=? y) = true.
Proof.
  rewrite !is_nan_false, FloatAxioms.ltb_spec, FloatAxioms.leb_spec. unfold is_NaN, SFltb, SFleb.
  intros Hx Hy H.
  destruct (SFcompare_total _ _ Hx Hy) as [c Hc].
  rewrite Hc. rewrite (SFcompare_antisym _ _ _ Hc) in H.
  destruct c; simpl in H; congruence.
Qed.

(** "Greater" and "less or equal" exclude each other. *)
Lemma gt_not_le (x y : float) : (y <? x) = true -> (x <=? y) = false.
Proof.
  rewrite FloatAxioms.ltb_spec, FloatAxioms.leb_spec. unfold SFltb, SFleb.
  destruct (SFcompare (Prim2SF y) (Prim2SF x)) as [c|] eqn:E; try discriminate.
  rewrite (SFcompare_antisym _ _ _ E).
  destruct c; simpl; congruence.
Qed.

Lemma eqb_not_lt (x y : float) : (x =? y) = true -> (y <? x) = false.
Proof.
  rewrite FloatAxioms.eqb_spec, FloatAxioms.ltb_spec. unfold SFeqb, SFltb.
  destruct (SFcompare (Prim2SF x) (Prim2SF y)) as [c|] eqn:E; try discriminate.
  rewrite (SFcompare_antisym _ _ _ E).
  destruct c; simpl; congruence.
Qed.

(** ** The order on numbers is transitive *)

Ltac compare_cases :=
  repeat match goal with
  | |- context [(?a ?= ?b)%Z] => destruct (Z.compare_spec a b)
  | |- context [Pos.compare_cont Eq ?a ?b] =>
      change (Pos.compare_cont Eq a b) with (Pos.compare a b);
      destruct (Pos.compare_spec a b)
  | H : context [(?a ?= ?b)%Z] |- _ => destruct (Z.compare_spec a b)
  | H : context [Pos.compare_cont Eq ?a ?b] |- _ =>
      change (Pos.compare_cont Eq a b) with (Pos.compare a b) in H;
      destruct (Pos.compare_spec a b)
  end;
  simpl in *; try discriminate; try reflexivity; try lia.

Lemma SFcompare_lt_trans (x y z : spec_float) :
  SFcompare x y = Some Lt -> SFcompare y z = Some Lt ->
  SFcompare x z = Some Lt.
Proof.
  destruct x as [sx|sx| |sx mx ex], y as [sy|sy| |sy my ey],
           z as [sz|sz| |sz mz ez];
    simpl; try discriminate;
    try (destruct sx; simpl; try discriminate; try reflexivity);
    try (destruct sy; simpl; try discriminate; try reflexivity);
    try (destruct sz; simpl; try discriminate; try reflexivity).
  all: intros Hxy Hyz; f_equal; compare_cases.
Qed.

(** Numbers that compare equal are the same, or are both zeros. *)
Lemma SFcompare_Eq (x y : spec_float) :
  SFcompare x y = Some Eq ->
  x = y \/ exists s s', x = S754_zero s /\ y = S754_zero s'.
Proof.
  destruct x as [sx|sx| |sx mx ex], y as [sy|sy| |sy my ey];
    simpl; try discriminate;
    try (destruct sx; discriminate); try (destruct sy; discriminate).
  - intros _. right. eauto.
  - destruct sx, sy; try discriminate; intros _; left; reflexivity.
  - destruct sx, sy; try discriminate; intros Hc; left;
      injection Hc as Hc; revert Hc; compare_cases; intros; subst;
      reflexivity.
Qed.

Lemma SFcompare_zero_r (x : spec_float) (s s' : bool) :
  SFcompare x (S754_zero s) = SFcompare x (S754_zero s').
Proof. destruct x as [sx|sx| |sx mx ex]; reflexivity. Qed.

Lemma SFcompare_lt_le_trans (x y z : spec_float) :
  SFcompare x y = Some Lt -> SFleb y z = true -> SFcompare x z = Some Lt.
Proof.
  unfold SFleb. intros Hxy Hyz.
  destruct (SFcompare y z) as [[| |]|] eqn:E; try discriminate.
  - destruct (SFcompare_Eq _ _ E) as [<- | (s & s' & -> & ->)].
    + exact Hxy.
    + rewrite (SFcompare_zero_r x s' s). exact Hxy.
  - exact (SFcompare_lt_trans _ _ _ Hxy E).
Qed.

Lemma lt_le_trans (x y z : float) :
  (x <? y) = true -> (y <=? z) = true -> (x <? z) = true.
Proof.
  rewrite !FloatAxioms.ltb_spec, FloatAxioms.leb_spec. unfold SFltb.
  intros Hxy Hyz.
  destruct (SFcompare (Prim2SF x) (Prim2SF y)) as [[| |]|] eqn:E;
    try discriminate.
  rewrite (SFcompare_lt_le_trans _ _ _ E Hyz). reflexivity.
Qed.

Lemma lt_le (x y : float) : (x <? y) = true -> (x <=? y) = true.
Proof.
  rewrite FloatAxioms.ltb_spec, FloatAxioms.leb_spec. unfold SFltb, SFleb.
  destruct (SFcompare (Prim2SF x) (Prim2SF y)) as [[| |]|]; congruence.
Qed.

Lemma leb_refl (x : float) : is_nan x = false -> (x <=? x) = true.
Proof.
  rewrite is_nan_false, FloatAxioms.leb_spec. unfold is_NaN, SFleb.
  intros Hx. rewrite (SFcompare_refl _ Hx). reflexivity.
Qed.

(** ** NaN is absorbing *)

Lemma mul_not_nan (x y : float) :
  is_nan (x * y) = false -> is_nan x = false /\ is_nan y = false.
Proof.
  rewrite !is_nan_false. unfold is_NaN. rewrite mul_spec. intros H.
  split; intros Hn; apply H; rewrite Hn; unfold SF64mul; simpl.
  - reflexivity.
  - destruct (Prim2SF x); reflexivity.
Qed.

Lemma div_not_nan (x y : float) :
  is_nan (x / y) = false -> is_nan x = false /\ is_nan y = false.
Proof.
  rewrite !is_nan_false. unfold is_NaN. rewrite div_spec. intros H.
  split; intros Hn; apply H; rewrite Hn; unfold SF64div; simpl.
  - reflexivity.
  - destruct (Prim2SF x); reflexivity.
Qed.

Lemma sub_not_nan (x y : float) :
  is_nan (x - y) = false -> is_nan x = false /\ is_nan y = false.
Proof.
  rewrite !is_nan_false. unfold is_NaN. rewrite sub_spec. intros H.
  split; intros Hn; apply H; rewrite Hn; unfold SF64sub; simpl.
  - reflexivity.
  - destruct (Prim2SF x); reflexivity.
Qed.

Lemma sqrt_not_nan (x : float) :
  is_nan (PrimFloat.sqrt x) = false -> is_nan x = false.
Proof.
  rewrite !is_nan_false. unfold is_NaN. rewrite sqrt_spec. intros H Hn.
  apply H. rewrite Hn. reflexivity.
Qed.

(** ** Commutativity of [+] and [*] *)

Lemma SFmul_comm (x y : spec_float) : SF64mul x y = SF64mul y x.
Proof.
  unfold SF64mul.
  destruct x as [bx|bx| |bx mx ex], y as [by_|by_| |by_ my ey]; simpl;
    try reflexivity; try (rewrite (xorb_comm bx by_); reflexivity).
  rewrite (xorb_comm bx by_), (Pos.mul_comm mx my), (Z.add_comm ex ey).
  reflexivity.
Qed.

Lemma SFadd_comm (x y : spec_float) : SF64add x y = SF64add y x.
Proof.
  unfold SF64add.
  destruct x as [bx|bx| |bx mx ex], y as [by_|by_| |by_ my ey]; simpl;
    try reflexivity; try (destruct bx, by_; reflexivity).
  rewrite (Z.min_comm ey ex).
  rewrite (Z.add_comm (cond_Zopp by_ _)).
  reflexivity.
Qed.

Lemma mul_comm (x y : float) : x * y = y * x.
Proof. apply Prim2SF_inj. rewrite !mul_spec. apply SFmul_comm. Qed.

Lemma add_comm (x y : float) : x + y = y + x.
Proof. apply Prim2SF_inj. rewrite !add_spec. apply SFadd_comm. Qed.

(** ** Squares of opposite differences *)

(** [x - y] and [y - x] are opposite, except that both are [+0] when the
    operands are equal. *)
Definition opposite_or_zeros (u v : spec_float) : Prop :=
  v = SFopp u \/ exists s s', u = S754_zero s /\ v = S754_zero s'.

Lemma binary_round_aux_opp (s : bool) (m e : Z) (l : location) :
  binary_round_aux prec emax (negb s) m e l
  = SFopp (binary_round_aux prec emax s m e l).
Proof.
  unfold binary_round_aux.
  destruct (shr_fexp prec emax m e l) as [mrs' e'].
  destruct (shr_fexp prec emax _ e' loc_Exact) as [mrs'' e''].
  destruct (shr_m mrs''); try reflexivity.
  destruct (e'' <=? emax - prec)%Z; reflexivity.
Qed.

Lemma binary_normalize_opp (m e : Z) :
  opposite_or_zeros (binary_normalize prec emax m e false)
                    (binary_normalize prec emax (- m) e false).
Proof.
  destruct m as [|p|p]; simpl.
  - right. exists false, false. split; reflexivity.
  - left. unfold binary_round.
    destruct (shl_align p e _) as [mz ez].
    apply (binary_round_aux_opp false).
  - left. unfold binary_round.
    destruct (shl_align p e _) as [mz ez].
    rewrite (binary_round_aux_opp false). 
    destruct (binary_round_aux prec emax false (Z.pos mz) ez loc_Exact)
      as [b|b| |b m' e']; simpl; rewrite ?negb_involutive; reflexivity.
Qed.

Lemma SFsub_swap (x y : spec_float) :
  opposite_or_zeros (SF64sub x y) (SF64sub y x).
Proof.
  unfold SF64sub.
  destruct x as [bx|bx| |bx mx ex], y as [by_|by_| |by_ my ey]; simpl;
    try (left; reflexivity);
    try (left; destruct bx, by_; reflexivity);
    try (left; simpl; rewrite negb_involutive; reflexivity).
  - destruct bx, by_; simpl;
      solve [ left; reflexivity
            | right; eexists; eexists; split; reflexivity ].
  - rewrite (Z.min_comm ey ex).
    match goal with
    | |- opposite_or_zeros (binary_normalize _ _ ?a _ _)
                           (binary_normalize _ _ ?b _ _) =>
        replace b with (- a)%Z by (unfold Z.sub; lia)
    end.
    apply binary_normalize_opp.
Qed.

Lemma SFmul_square_opp (u v : spec_float) :
  opposite_or_zeros u v -> SF64mul u u = SF64mul v v.
Proof.
  unfold SF64mul.
  intros [-> | (s & s' & -> & ->)].
  - destruct u as [b|b| |b m e]; simpl; try reflexivity;
      destruct b; reflexivity.
  - simpl. destruct s, s'; reflexivity.
Qed.

Lemma sub_square_swap (x y : float) : (x - y) * (x - y) = (y - x) * (y - x).
Proof.
  apply Prim2SF_inj. rewrite !mul_spec, !sub_spec.
  apply SFmul_square_opp, SFsub_swap.
Qed.

End IEEE.


(* ================================================================== *)
(** * The pairwise interaction builder                                 *)
(* ================================================================== *)

Module PairFacts.

Import Spatialpy.
Local Open Scope float_scope.
#[local] Set Warnings "-inexact-float".

Section Builder.

Variable ANN_DIST_INF : float.
Context {T : Type} `{ANNpointSet T}.

#[local] Abbreviation add_to_neighbor_list := (add_to_neighbor_list ANN_DIST_INF).
#[local] Abbreviation measured_r2 := (measured_r2 ANN_DIST_INF).
#[local] Abbreviation edge_of := (edge_of ANN_DIST_INF).

(** The three ways a call ends. *)
Lemma add_to_neighbor_list_eq (me neighbor : Particle)
    (system : ParticleSystem T) (r2 : float) :
  add_to_neighbor_list me neighbor system r2 =
  let r := PrimFloat.sqrt (measured_r2 me neighbor r2) in
  if h system <? r then Returned (0%Z, me) []
  else if is_nan (D_i_j (edge_of me neighbor system r2)) then
    Exited 1 (nan_diagnostics me neighbor r (h system)
                (105 / (16 * M_PI * h system * h system * h system))
                (dWdr_closed_form (h system) r))
  else Returned (1%Z, push_neighbor me (edge_of me neighbor system r2)) [].
Proof. reflexivity. Qed.

Lemma push_neighbor_inj (me : Particle) (e e' : NeighborNode) :
  push_neighbor me e = push_neighbor me e' -> e = e'.
Proof.
  unfold push_neighbor. intros Heq. injection Heq as Heq.
  apply app_inj_tail in Heq. apply Heq.
Qed.

Lemma particle_dist_sqrd_sym (p q : Particle) :
  particle_dist_sqrd p q = particle_dist_sqrd q p.
Proof.
  unfold particle_dist_sqrd. cbv zeta.
  rewrite (IEEE.sub_square_swap (e0 (x p)) (e0 (x q))).
  rewrite (IEEE.sub_square_swap (e1 (x p)) (e1 (x q))).
  rewrite (IEEE.sub_square_swap (e2 (x p)) (e2 (x q))).
  reflexivity.
Qed.

Lemma measured_r2_sym (p q : Particle) (r2 : float) :
  measured_r2 p q r2 = measured_r2 q p r2.
Proof.
  unfold Spatialpy.measured_r2. rewrite (particle_dist_sqrd_sym p q).
  reflexivity.
Qed.

Lemma D_i_j_closed_form_sym (mi mj rhoi rhoj hh r2 : float) :
  D_i_j_closed_form mi mj rhoi rhoj hh r2
  = D_i_j_closed_form mj mi rhoj rhoi hh r2.
Proof.
  unfold D_i_j_closed_form.
  rewrite (IEEE.mul_comm mi mj), (IEEE.add_comm mi mj).
  rewrite (IEEE.add_comm rhoi rhoj), (IEEE.mul_comm rhoi rhoj).
  reflexivity.
Qed.

(** *** Exclusion beyond the support radius *)

(** The exclusion rule read with "equal to or greater": whenever
    [h <= r], the call returns 0 and leaves the particle alone. *)
Definition excluded_at_or_beyond (me neighbor : Particle)
    (system : ParticleSystem T) (r2 : float) : Prop :=
  (h system <=? PrimFloat.sqrt (measured_r2 me neighbor r2)) = true ->
  add_to_neighbor_list me neighbor system r2 = Returned (0%Z, me) [].

(** C1 (as the code has it): a candidate whose distance [r = sqrt(r2)] is
    greater than the support radius [h] creates no edge: the call returns 0,
    the particle and its neighbour list are unchanged, nothing is printed
    and the run goes on.  A candidate at [r = h] exactly is not excluded:
    the call goes on to the coefficient and either appends the edge and
    returns 1 or stops at the NaN guard. *)
Theorem add_to_neighbor_list_outside_support (me neighbor : Particle)
    (system : ParticleSystem T) (r2 : float) :
  ((h system <? PrimFloat.sqrt (measured_r2 me neighbor r2)) = true ->
   add_to_neighbor_list me neighbor system r2 = Returned (0%Z, me) [])
  /\
  ((PrimFloat.sqrt (measured_r2 me neighbor r2) =? h system) = true ->
   add_to_neighbor_list me neighbor system r2
   = Returned (1%Z, push_neighbor me (edge_of me neighbor system r2)) []
   \/ exists out, add_to_neighbor_list me neighbor system r2 = Exited 1 out).
Proof.
  rewrite add_to_neighbor_list_eq. cbv zeta. split.
  - intros ->. reflexivity.
  - intros Heq. rewrite (IEEE.eqb_not_lt _ _ Heq).
    destruct (is_nan _).
    + right. eexists. reflexivity.
    + left. reflexivity.
Qed.

(** *** The NaN guard *)

(** The guard read with "not a finite number": within the support radius
    a coefficient that is not finite stops the run, a finite one appends
    the edge. *)
Definition nonfinite_aborts (me neighbor : Particle)
    (system : ParticleSystem T) (r2 : float) : Prop :=
  (h system <? PrimFloat.sqrt (measured_r2 me neighbor r2)) = false ->
  (is_finite (D_i_j (edge_of me neighbor system r2)) = false ->
   exists out, add_to_neighbor_list me neighbor system r2 = Exited 1 out)
  /\
  (is_finite (D_i_j (edge_of me neighbor system r2)) = true ->
   add_to_neighbor_list me neighbor system r2
   = Returned (1%Z, push_neighbor me (edge_of me neighbor system r2)) []).

(** C2 (as the code has it): for a pair that the radius test lets through,
    a coefficient [D_i_j] that is NaN stops the run with [exit(1)] after
    printing both ids, [r], [h], [alpha], [dWdr] and both masses and
    densities, and no edge is appended; any other coefficient, an infinite
    one included, appends the edge and returns 1 without printing. *)
Theorem add_to_neighbor_list_nan_guard (me neighbor : Particle)
    (system : ParticleSystem T) (r2 : float) :
  (h system <? PrimFloat.sqrt (measured_r2 me neighbor r2)) = false ->
  (is_nan (D_i_j (edge_of me neighbor system r2)) = true ->
   add_to_neighbor_list me neighbor system r2
   = Exited 1
       [ ("Got NaN calculating D_i_j for me=%i, neighbor=%i\n"%string,
            [ArgInt (id me); ArgInt (id neighbor)]);
         ("r=%e "%string,
            [ArgDouble (PrimFloat.sqrt (measured_r2 me neighbor r2))]);
         ("h=%e "%string, [ArgDouble (h system)]);
         ("alpha=%e "%string,
            [ArgDouble (105 / (16 * M_PI * h system * h system * h system))]);
         ("dWdr=%e "%string, [ArgDouble (dWdr (edge_of me neighbor system r2))]);
         ("mass=%e "%string, [ArgDouble (mass me)]);
         ("rho=%e "%string, [ArgDouble (rho me)]);
         ("n->mass=%e "%string, [ArgDouble (mass neighbor)]);
         ("n->rho=%e "%string, [ArgDouble (rho neighbor)]) ])
  /\
  (is_nan (D_i_j (edge_of me neighbor system r2)) = false ->
   add_to_neighbor_list me neighbor system r2
   = Returned (1%Z, push_neighbor me (edge_of me neighbor system r2)) []).
Proof.
  intros Hin. rewrite add_to_neighbor_list_eq. cbv zeta. rewrite Hin.
  split; intros ->; reflexivity.
Qed.

(** *** The marker distance *)

(** C4: given the marker [ANN_DIST_INF] (a number, not NaN) as squared
    distance, the builder does what it does given the squared distance
    [particle_dist_sqrd(neighbor)] measured from the two positions: the
    same decision, the same edge, the same return value, the same output. *)
Theorem add_to_neighbor_list_marker (me neighbor : Particle)
    (system : ParticleSystem T) :
  (ANN_DIST_INF =? ANN_DIST_INF) = true ->
  add_to_neighbor_list me neighbor system ANN_DIST_INF
  = add_to_neighbor_list me neighbor system (particle_dist_sqrd me neighbor).
Proof.
  intros Hinf. unfold Spatialpy.add_to_neighbor_list. rewrite Hinf.
  destruct (particle_dist_sqrd me neighbor =? ANN_DIST_INF); reflexivity.
Qed.

(** *** Direction *)

(** The edge a call that returns 1 has appended. *)
Lemma add_to_neighbor_list_edge (me neighbor : Particle)
    (system : ParticleSystem T) (r2 : float) (e : NeighborNode) :
  add_to_neighbor_list me neighbor system r2
    = Returned (1%Z, push_neighbor me e) [] ->
  e = edge_of me neighbor system r2.
Proof.
  rewrite add_to_neighbor_list_eq. cbv zeta.
  destruct (h system <? _); try discriminate.
  destruct (is_nan _); try discriminate.
  intros He.
  assert (Hp : push_neighbor me (edge_of me neighbor system r2)
               = push_neighbor me e) by congruence.
  apply push_neighbor_inj in Hp. symmetry. exact Hp.
Qed.

Lemma edge_of_D_i_j_sym (p q : Particle) (system : ParticleSystem T)
    (r2 : float) :
  D_i_j (edge_of p q system r2) = D_i_j (edge_of q p system r2).
Proof.
  unfold Spatialpy.edge_of. cbn [D_i_j].
  rewrite (measured_r2_sym q p r2). apply D_i_j_closed_form_sym.
Qed.

(** The coefficient read as directional: some pair with different masses
    or densities gets different coefficients in the two directions. *)
Definition directional_pair : Prop :=
  exists (me neighbor : Particle) (system : ParticleSystem T) (r2 : float)
         (e e' : NeighborNode),
    (mass me <> mass neighbor \/ rho me <> rho neighbor)
    /\ add_to_neighbor_list me neighbor system r2
       = Returned (1%Z, push_neighbor me e) []
    /\ add_to_neighbor_list neighbor me system r2
       = Returned (1%Z, push_neighbor neighbor e') []
    /\ D_i_j e <> D_i_j e'.

(** C5 (as the code has it): the coefficient does not depend on the
    direction.  When each of two particles takes the other as neighbour at
    the same squared distance (or at the marker) and both edges are made,
    the two edges carry the same [D_i_j], the same [dWdr] and the same [r],
    whatever the masses and densities. *)
Theorem D_i_j_symmetric (me neighbor : Particle) (system : ParticleSystem T)
    (r2 : float) (e e' : NeighborNode) :
  add_to_neighbor_list me neighbor system r2
    = Returned (1%Z, push_neighbor me e) [] ->
  add_to_neighbor_list neighbor me system r2
    = Returned (1%Z, push_neighbor neighbor e') [] ->
  D_i_j e = D_i_j e' /\ dWdr e = dWdr e' /\ dist e = dist e'.
Proof.
  intros He He'.
  apply add_to_neighbor_list_edge in He.
  apply add_to_neighbor_list_edge in He'.
  subst e e'. split; [apply edge_of_D_i_j_sym|].
  unfold Spatialpy.edge_of. cbn [dWdr dist].
  rewrite (measured_r2_sym neighbor me r2). split; reflexivity.
Qed.

(** *** Distances *)

(** C10: [p.particle_dist(q)] is the square root of
    [p.particle_dist_sqrd(q)], and both helpers give the same value when the
    two particles change places. *)
Theorem particle_dist_agree_sym (p q : Particle) :
  particle_dist p q = PrimFloat.sqrt (particle_dist_sqrd p q)
  /\ particle_dist p q = particle_dist q p
  /\ particle_dist_sqrd p q = particle_dist_sqrd q p.
Proof.
  assert (Hs : forall a b, particle_dist a b
                           = PrimFloat.sqrt (particle_dist_sqrd a b))
    by reflexivity.
  repeat split.
  - rewrite !Hs. f_equal. apply particle_dist_sqrd_sym.
  - apply particle_dist_sqrd_sym.
Qed.

End Builder.

(** ** The reference pair *)

(** Two particles of mass 1 and density 1 at distance [r = 0.5 h], [h = 1]. *)
Definition ref_owner : Particle := particle_at 0 0 1 1.
Definition ref_neighbor : Particle := particle_at 1 0.5 1 1.
Definition ref_system : ParticleSystem (list (list float)) :=
  system_of 1 [ref_owner; ref_neighbor].

(** At [r = h] the pair is included: C1 as stated fails there. *)
Lemma excluded_at_or_beyond_fails :
  ~ excluded_at_or_beyond ANN_DBL_MAX
      (particle_at 0 0 1 1) (particle_at 1 1 1 1)
      (system_of 1 [particle_at 0 0 1 1; particle_at 1 1 1 1]) 1.
Proof.
  unfold excluded_at_or_beyond. intros Hc.
  assert (Hle : (h (system_of 1 [particle_at 0 0 1 1; particle_at 1 1 1 1])
                 <=? PrimFloat.sqrt
                       (measured_r2 ANN_DBL_MAX (particle_at 0 0 1 1)
                                    (particle_at 1 1 1 1) 1)) = true)
    by (vm_compute; reflexivity).
  apply Hc in Hle. vm_compute in Hle. discriminate Hle.
Qed.

Lemma add_to_neighbor_list_outside_support_witness :
  add_to_neighbor_list ANN_DBL_MAX ref_owner ref_neighbor ref_system 4
    = Returned (0%Z, ref_owner) []
  /\ (add_to_neighbor_list ANN_DBL_MAX ref_owner ref_neighbor ref_system 1
        = Returned (1%Z, push_neighbor ref_owner
                           (edge_of ANN_DBL_MAX ref_owner ref_neighbor
                                    ref_system 1)) []
      \/ exists out,
          add_to_neighbor_list ANN_DBL_MAX ref_owner ref_neighbor ref_system 1
          = Exited 1 out).
Proof.
  split.
  - apply (proj1 (add_to_neighbor_list_outside_support
                    ANN_DBL_MAX ref_owner ref_neighbor ref_system 4)).
    vm_compute. reflexivity.
  - apply (proj2 (add_to_neighbor_list_outside_support
                    ANN_DBL_MAX ref_owner ref_neighbor ref_system 1)).
    vm_compute. reflexivity.
Defined.

(** A neighbour of density 0 gives an infinite coefficient, and the edge
    is appended: C2 as stated fails there. *)
Lemma nonfinite_aborts_fails :
  ~ nonfinite_aborts ANN_DBL_MAX
      (particle_at 0 0 1 1) (particle_at 1 0.5 1 0)
      (system_of 1 [particle_at 0 0 1 1; particle_at 1 0.5 1 0]) 0.25.
Proof.
  unfold nonfinite_aborts. intros Hc.
  destruct Hc as [Habort _]; [ vm_compute; reflexivity | ].
  destruct Habort as [out Hout]; [ vm_compute; reflexivity | ].
  vm_compute in Hout. discriminate Hout.
Qed.

Lemma add_to_neighbor_list_nan_guard_witness :
  (exists out,
     add_to_neighbor_list ANN_DBL_MAX ref_owner ref_neighbor ref_system (-1)
     = Exited 1 out)
  /\ add_to_neighbor_list ANN_DBL_MAX ref_owner ref_neighbor ref_system 0.25
     = Returned (1%Z, push_neighbor ref_owner
                        (edge_of ANN_DBL_MAX ref_owner ref_neighbor
                                 ref_system 0.25)) [].
Proof.
  split.
  - eexists.
    apply (proj1 (add_to_neighbor_list_nan_guard
                    ANN_DBL_MAX ref_owner ref_neighbor ref_system (-1)
                    ltac:(vm_compute; reflexivity))).
    vm_compute. reflexivity.
  - apply (proj2 (add_to_neighbor_list_nan_guard
                    ANN_DBL_MAX ref_owner ref_neighbor ref_system 0.25
                    ltac:(vm_compute; reflexivity))).
    vm_compute. reflexivity.
Defined.

Lemma add_to_neighbor_list_marker_witness :
  add_to_neighbor_list ANN_DBL_MAX ref_owner ref_neighbor ref_system ANN_DBL_MAX
  = add_to_neighbor_list ANN_DBL_MAX ref_owner ref_neighbor ref_system
      (particle_dist_sqrd ref_owner ref_neighbor).
Proof.
  apply (add_to_neighbor_list_marker ANN_DBL_MAX ref_owner ref_neighbor
                                     ref_system).
  vm_compute. reflexivity.
Defined.

(** No pair is directional: C5 as stated fails. *)
Lemma directional_pair_fails :
  ~ directional_pair ANN_DBL_MAX (T := list (list float)).
Proof.
  intros (me & neighbor & system & r2 & e & e' & _ & He & He' & Hneq).
  apply Hneq.
  apply add_to_neighbor_list_edge in He.
  apply add_to_neighbor_list_edge in He'.
  subst e e'. apply edge_of_D_i_j_sym.
Qed.

(** A light and a heavy, dense particle. *)
Definition light : Particle := particle_at 0 0 1 1.
Definition heavy : Particle := particle_at 1 0.5 3 2.

Lemma D_i_j_symmetric_witness :
  D_i_j (edge_of ANN_DBL_MAX light heavy (system_of 1 [light; heavy]) 0.25)
  = D_i_j (edge_of ANN_DBL_MAX heavy light (system_of 1 [light; heavy]) 0.25)
  /\ dWdr (edge_of ANN_DBL_MAX light heavy (system_of 1 [light; heavy]) 0.25)
     = dWdr (edge_of ANN_DBL_MAX heavy light (system_of 1 [light; heavy]) 0.25)
  /\ dist (edge_of ANN_DBL_MAX light heavy (system_of 1 [light; heavy]) 0.25)
     = dist (edge_of ANN_DBL_MAX heavy light (system_of 1 [light; heavy]) 0.25).
Proof.
  apply (D_i_j_symmetric ANN_DBL_MAX light heavy
                         (system_of 1 [light; heavy]) 0.25).
  - vm_compute. reflexivity.
  - vm_compute. reflexivity.
Defined.

(** Bounds on pi from the series of [2 atan(1/3) + atan(1/7)]. *)
Lemma PI_bounds : (3.14159265358 < PI < 3.14159265360)%R.
Proof.
  pose proof (PI_2_3_7_ineq 5) as [Hlo Hhi].
  unfold sum_f_R0, tg_alt, PI_2_3_7_tg, Ratan_seq in Hlo, Hhi.
  cbn [Nat.mul Nat.add] in Hlo, Hhi.
  repeat rewrite INR_IZR_INZ in Hlo.
  repeat rewrite INR_IZR_INZ in Hhi.
  cbn [Z.of_nat Pos.of_succ_nat Pos.succ] in Hlo, Hhi.
  split; lra.
Qed.

Lemma inv_PI_bounds : (/ 3.14159265360 < / PI < / 3.14159265358)%R.
Proof.
  destruct PI_bounds as [Hlo Hhi].
  split; apply Rinv_lt_contravar; try assumption;
    apply Rmult_lt_0_compat; lra.
Qed.

Lemma ref_dWdr_value :
  Documented.F2R (dWdr (edge_of ANN_DBL_MAX ref_owner ref_neighbor ref_system 0.25))
  = (IZR (-7055706089277880) * / 2 ^ 51)%R.
Proof.
  unfold Documented.F2R.
  replace (Prim2SF _) with (S754_finite true 7055706089277880 (-51))
    by (vm_compute; reflexivity).
  reflexivity.
Qed.

Lemma ref_D_i_j_value :
  Documented.F2R (D_i_j (edge_of ANN_DBL_MAX ref_owner ref_neighbor ref_system 0.25))
  = (IZR 6784332778151808 * / 2 ^ 49)%R.
Proof.
  unfold Documented.F2R.
  replace (Prim2SF _) with (S754_finite false 6784332778151808 (-49))
    by (vm_compute; reflexivity).
  reflexivity.
Qed.

Lemma ref_dWdr_documented :
  Documented.dWdr 1 (1 / 2) = (- (315 / 32) * / PI)%R.
Proof.
  unfold Documented.dWdr. field. apply PI_neq0.
Qed.

Lemma ref_D_i_j_documented :
  Documented.D_i_j 1 1 1 1 1 (1 / 2) (Documented.dWdr 1 (1 / 2))
  = (315 / 32 / 0.26 * / PI)%R.
Proof.
  rewrite ref_dWdr_documented. unfold Documented.D_i_j.
  replace 0.01%R with (1 / 100)%R by lra.
  replace 0.26%R with (26 / 100)%R by lra.
  field. apply PI_neq0.
Qed.

(** In [double] arithmetic the coefficient stored for the reference pair is
    one unit in the last place away from the documented expression in the
    stored [dWdr]. *)
Example ref_D_i_j_last_place :
  D_i_j (edge_of ANN_DBL_MAX ref_owner ref_neighbor ref_system 0.25)
    = 0x1.81a5091479f80p+3
  /\ (-2.0) * (1 * 1) / (1 + 1) * (1 + 1) / (1 * 1)
     * (0.5 * dWdr (edge_of ANN_DBL_MAX ref_owner ref_neighbor ref_system 0.25))
     / (0.5 * 0.5 + 0.01 * 1 * 1)
     = 0x1.81a5091479f7fp+3.
Proof. split; vm_compute; reflexivity. Qed.

(** *** The formulas as expressions *)

(** The edge of an included pair holds the values of the expressions in
    [double] arithmetic. *)
Lemma edge_of_eval_double (ANN_DIST_INF : float) (T : Type)
    (me neighbor : Particle) (system : ParticleSystem T) (r2 : float) :
  let env := Formula.inputs ANN_DIST_INF me neighbor system r2 in
  edge_of ANN_DIST_INF me neighbor system r2
  = {| data := neighbor;
       dist := Formula.eval_double env Formula.r_expr;
       dWdr := Formula.eval_double env Formula.dWdr_expr;
       D_i_j := Formula.eval_double env Formula.D_i_j_expr |}.
Proof. reflexivity. Qed.

(** The numbers the literals denote. *)
Ltac literal s m e :=
  unfold Documented.F2R;
  replace (Prim2SF _) with (S754_finite s m e) by (vm_compute; reflexivity);
  simpl; lra.

Lemma F2R_105 : Documented.F2R 105 = 105%R.
Proof. literal false 7388718138654720%positive (-46)%Z. Qed.

Lemma F2R_16 : Documented.F2R 16 = 16%R.
Proof. literal false 4503599627370496%positive (-48)%Z. Qed.

Lemma F2R_M_PI : Documented.F2R M_PI = (7074237752028440 / 2 ^ 51)%R.
Proof. literal false 7074237752028440%positive (-51)%Z. Qed.

Lemma F2R_minus_12 : Documented.F2R (-12) = (-12)%R.
Proof. literal true 6755399441055744%positive (-49)%Z. Qed.

Lemma F2R_1 : Documented.F2R 1 = 1%R.
Proof. literal false 4503599627370496%positive (-52)%Z. Qed.

Lemma F2R_wfd_constant :
  Documented.F2R (-25.066903536973515383e0)
  = (- (7055706089277881 / 2 ^ 48))%R.
Proof. literal true 7055706089277881%positive (-48)%Z. Qed.

Lemma F2R_minus_2 : Documented.F2R (-2.0) = (-2)%R.
Proof. literal true 4503599627370496%positive (-51)%Z. Qed.

Lemma F2R_0_01 : Documented.F2R 0.01 = (5764607523034235 / 2 ^ 59)%R.
Proof. literal false 5764607523034235%positive (-59)%Z. Qed.

Section Exact.

Local Open Scope R_scope.

Variable env : Formula.var -> R.

Let hh := env Formula.Vh.
Let r := R_sqrt.sqrt (env Formula.Vr2).

Hypothesis Hh : 0 < env Formula.Vh.
Hypothesis Hr2 : 0 <= env Formula.Vr2.

(** Over the reals the kernel derivative of the code is the documented one
    times [pi / M_PI]. *)
Lemma dWdr_expr_real :
  Formula.eval_real env Formula.dWdr_expr
  = PI / (7074237752028440 / 2 ^ 51) * Documented.dWdr hh r.
Proof.
  cbn [Formula.eval_real Formula.dWdr_expr Formula.alpha_expr
       Formula.R_expr Formula.r_expr].
  rewrite F2R_105, F2R_16, F2R_M_PI, F2R_minus_12, F2R_1.
  fold hh r. unfold Documented.dWdr.
  assert (Hhh : hh <> 0) by (unfold hh; lra).
  pose proof PI_neq0. field. split; assumption.
Qed.

Lemma M_PI_close : Rabs (PI / (7074237752028440 / 2 ^ 51) - 1) <= 1e-9.
Proof.
  destruct PI_bounds as [Hlo Hhi]. apply Rabs_le. lra.
Qed.

Hypothesis Hmass : 0 < env Formula.Vmass.
Hypothesis Hnmass : 0 < env Formula.Vnmass.
Hypothesis Hrho : 0 < env Formula.Vrho.
Hypothesis Hnrho : 0 < env Formula.Vnrho.

(** Over the reals the coefficient of the code is the documented one, in the
    documented [dWdr], times [k * 16 pi / 1260], [k] the number the literal
    of [wfd] denotes, and times the ratio of the two regularised
    denominators, [0.01] against the [double] nearest to it. *)
Lemma D_i_j_expr_real :
  Formula.eval_real env Formula.D_i_j_expr
  = (7055706089277881 / 2 ^ 48 * 16 * PI / 1260)
    * ((r * r + 1 / 100 * hh * hh)
       / (r * r + 5764607523034235 / 2 ^ 59 * hh * hh))
    * Documented.D_i_j (env Formula.Vmass) (env Formula.Vnmass)
        (env Formula.Vrho) (env Formula.Vnrho) hh r (Documented.dWdr hh r).
Proof.
  cbn [Formula.eval_real Formula.D_i_j_expr Formula.wfd_expr
       Formula.dhr_expr Formula.ihsq_expr Formula.ih_expr Formula.r_expr].
  rewrite F2R_minus_2, F2R_wfd_constant, F2R_0_01, F2R_1.
  replace (env Formula.Vr2) with (r * r)
    by (unfold r; apply sqrt_sqrt; exact Hr2).
  replace (R_sqrt.sqrt (r * r)) with r
    by (symmetry; apply sqrt_square; unfold r; apply sqrt_pos).
  fold hh. unfold Documented.D_i_j, Documented.dWdr.
  replace 0.01 with (1 / 100) by lra.
  assert (Hr : 0 <= r) by (unfold r; apply sqrt_pos).
  assert (Hhh : 0 < hh) by exact Hh.
  assert (Hreg : r * r + 5764607523034235 / 2 ^ 59 * hh * hh <> 0) by nra.
  assert (Hreg' : r ^ 2 + 1 / 100 * hh ^ 2 <> 0) by nra.
  pose proof PI_neq0.
  field. repeat split; try lra; try assumption; try nra.
Qed.

Lemma D_i_j_factor_close :
  Rabs ((7055706089277881 / 2 ^ 48 * 16 * PI / 1260)
        * ((r * r + 1 / 100 * hh * hh)
           / (r * r + 5764607523034235 / 2 ^ 59 * hh * hh)) - 1) <= 1e-9.
Proof.
  destruct PI_bounds as [Hlo Hhi].
  assert (Hr : 0 <= r * r) by (apply Rle_0_sqr).
  assert (Hhh : 0 < hh * hh) by (apply Rmult_lt_0_compat; exact Hh).
  set (rr := r * r) in *. 
  replace (1 / 100 * hh * hh) with (1 / 100 * (hh * hh)) by ring.
  replace (5764607523034235 / 2 ^ 59 * hh * hh)
    with (5764607523034235 / 2 ^ 59 * (hh * hh)) by ring.
  set (h2 := hh * hh) in *.
  set (num := rr + 1 / 100 * h2).
  set (den := rr + 5764607523034235 / 2 ^ 59 * h2).
  assert (Hden : 0 < den) by (unfold den; lra).
  assert (Hq : num / den * den = num) by (field; lra).
  assert (Hq1 : num / den <= 1).
  { apply (Rmult_le_reg_r den); [exact Hden|].
    rewrite Hq. unfold num, den. lra. }
  assert (Hq0 : 1 - 1e-12 <= num / den).
  { apply (Rmult_le_reg_r den); [exact Hden|].
    rewrite Hq. unfold num, den. lra. }
  apply Rabs_le. split; nra.
Qed.

End Exact.
(** *** Agreement of the stored values with the documented formulas *)

(** The closed forms read to a tolerance: the values an included pair
    stores agree, to the relative tolerance [tol], with the documented
    formulas at the numbers that [h], the masses, the densities and the
    stored distance denote. *)
Definition stored_closed_forms (tol : R) (ANN_DIST_INF : float) {T : Type}
    (me neighbor : Particle) (system : ParticleSystem T) (r2 : float) : Prop :=
  forall e : NeighborNode,
    add_to_neighbor_list ANN_DIST_INF me neighbor system r2
      = Returned (1%Z, push_neighbor me e) [] ->
    Documented.within tol (Documented.F2R (dWdr e))
      (Documented.dWdr (Documented.F2R (h system)) (Documented.F2R (dist e)))
    /\ Documented.within tol (Documented.F2R (D_i_j e))
         (Documented.D_i_j
            (Documented.F2R (mass me)) (Documented.F2R (mass neighbor))
            (Documented.F2R (rho me)) (Documented.F2R (rho neighbor))
            (Documented.F2R (h system)) (Documented.F2R (dist e))
            (Documented.dWdr (Documented.F2R (h system))
                             (Documented.F2R (dist e)))).

Lemma ref_dist_value :
  Documented.F2R (dist (edge_of ANN_DBL_MAX ref_owner ref_neighbor ref_system 0.25))
  = (1 / 2)%R.
Proof. literal false 4503599627370496%positive (-53)%Z. Qed.

(** Two particles of mass 1 and density 1 near the edge of the support:
    [h = 3] and [r = 3 - 2^-23].  The square [r * r] is a [double], its
    square root is [r], and [1 - r / h] is computed as [357913941 * 2^-53]
    where the quotient of the numbers is [2^-23 / 3]. *)
Definition near_owner : Particle := particle_at 0 0 1 1.
Definition near_neighbor : Particle := particle_at 1 0x1.7fffffp+1 1 1.
Definition near_system : ParticleSystem (list (list float)) :=
  system_of 3 [near_owner; near_neighbor].
Definition near_r2 : float := 0x1.1ffffe8000008p+3.

Example near_pair_arithmetic :
  near_r2 = 0x1.7fffffp+1 * 0x1.7fffffp+1
  /\ PrimFloat.sqrt near_r2 = 0x1.7fffffp+1
  /\ Prim2SF (1 - 0x1.7fffffp+1 / 3)
     = S754_finite false (357913941 * 2 ^ 24) (-77).
Proof. repeat split; vm_compute; reflexivity. Qed.

(** Over the reals too [near_r2] is the square of [r]. *)
Example near_r2_value :
  Documented.F2R near_r2
  = (25165823 / 2 ^ 23 * (25165823 / 2 ^ 23))%R.
Proof. literal false 5066549178138632%positive (-49)%Z. Qed.

Lemma near_h_value : Documented.F2R (h near_system) = 3%R.
Proof. literal false 6755399441055744%positive (-51)%Z. Qed.

Lemma near_dist_value :
  Documented.F2R
    (dist (edge_of ANN_DBL_MAX near_owner near_neighbor near_system near_r2))
  = (25165823 / 2 ^ 23)%R.
Proof. literal false 6755399172620288%positive (-51)%Z. Qed.

Lemma near_dWdr_value :
  Documented.F2R
    (dWdr (edge_of ANN_DBL_MAX near_owner near_neighbor near_system near_r2))
  = (- (4955447691951608 / 2 ^ 103))%R.
Proof. literal true 4955447691951608%positive (-103)%Z. Qed.

Lemma near_dWdr_documented :
  Documented.dWdr 3 (25165823 / 2 ^ 23)
  = (- (880803805 / 573767527668661893464064) * / PI)%R.
Proof.
  unfold Documented.dWdr. field. apply PI_neq0.
Qed.

(** Near the edge of the support the stored [dWdr] is more than 1e-9 away
    from the documented formula: C3 as stated fails there. *)
Lemma stored_closed_forms_fails :
  ~ stored_closed_forms 1e-9 ANN_DBL_MAX
      near_owner near_neighbor near_system near_r2.
Proof.
  unfold stored_closed_forms. intros Hc.
  destruct (Hc (edge_of ANN_DBL_MAX near_owner near_neighbor near_system
                        near_r2)) as [Hd _]; [ vm_compute; reflexivity | ].
  revert Hd. unfold Documented.within.
  rewrite near_dWdr_value, near_h_value, near_dist_value, near_dWdr_documented.
  destruct inv_PI_bounds as [Hlo Hhi].
  assert (Hdoc : Rabs (- (880803805 / 573767527668661893464064) * / PI)
                 = (880803805 / 573767527668661893464064 * / PI)%R)
    by (rewrite Rabs_left; lra).
  assert (Hdiff : Rabs (- (4955447691951608 / 2 ^ 103)
                        - - (880803805 / 573767527668661893464064) * / PI)
                  = (880803805 / 573767527668661893464064 * / PI
                     - 4955447691951608 / 2 ^ 103)%R)
    by (rewrite Rabs_pos_eq; lra).
  rewrite Hdoc, Hdiff. lra.
Qed.

(** C3 (as the code has it): a pair that the radius test and the NaN guard
    let through is appended with the distance [r = sqrt(r2)], the kernel
    derivative [dWdr] and the coefficient [D_i_j] that the expressions of
    the code give in [double] arithmetic: [dWdr] with
    [alpha = 105 / (16 pi h^3)], [D_i_j] from the masses, the densities, the
    kernel derivative over [r] (with a literal constant) and [r2 + 0.01 h^2].
    Over the reals these expressions agree with the documented closed forms,
    [D_i_j] in the documented [dWdr], to a relative tolerance of 1e-9, for
    all positive masses, densities and [h] and all [r2 >= 0].  On the
    reference pair ([h = 1], [r = 0.5], masses and densities 1) the edge is
    made and the stored doubles agree with the documented formulas to 1e-9
    as well. *)
Theorem edge_closed_forms :
  (forall (ANN_DIST_INF : float) (T : Type) (me neighbor : Particle)
          (system : ParticleSystem T) (r2 : float),
     let env := Formula.inputs ANN_DIST_INF me neighbor system r2 in
     (h system <? Formula.eval_double env Formula.r_expr) = false ->
     is_nan (Formula.eval_double env Formula.D_i_j_expr) = false ->
     add_to_neighbor_list ANN_DIST_INF me neighbor system r2
     = Returned
         (1%Z,
          push_neighbor me
            {| data := neighbor;
               dist := Formula.eval_double env Formula.r_expr;
               dWdr := Formula.eval_double env Formula.dWdr_expr;
               D_i_j := Formula.eval_double env Formula.D_i_j_expr |}) [])
  /\
  (forall env : Formula.var -> R,
     (0 < env Formula.Vh -> 0 <= env Formula.Vr2 ->
      0 < env Formula.Vmass -> 0 < env Formula.Vnmass ->
      0 < env Formula.Vrho -> 0 < env Formula.Vnrho ->
      Documented.within 1e-9
        (Formula.eval_real env Formula.dWdr_expr)
        (Documented.dWdr (env Formula.Vh) (R_sqrt.sqrt (env Formula.Vr2)))
      /\ Documented.within 1e-9
           (Formula.eval_real env Formula.D_i_j_expr)
           (Documented.D_i_j
              (env Formula.Vmass) (env Formula.Vnmass)
              (env Formula.Vrho) (env Formula.Vnrho)
              (env Formula.Vh) (R_sqrt.sqrt (env Formula.Vr2))
              (Documented.dWdr (env Formula.Vh)
                               (R_sqrt.sqrt (env Formula.Vr2)))))%R)
  /\
  ((exists e : NeighborNode,
      add_to_neighbor_list ANN_DBL_MAX ref_owner ref_neighbor ref_system 0.25
      = Returned (1%Z, push_neighbor ref_owner e) [])
   /\ stored_closed_forms 1e-9 ANN_DBL_MAX
        ref_owner ref_neighbor ref_system 0.25).
Proof.
  split; [|split].
  - intros ANN_DIST_INF T me neighbor system r2 env Hin Hnum.
    rewrite add_to_neighbor_list_eq. cbv zeta.
    rewrite edge_of_eval_double. cbv zeta. fold env.
    change (PrimFloat.sqrt (measured_r2 ANN_DIST_INF me neighbor r2))
      with (Formula.eval_double env Formula.r_expr).
    rewrite Hin. cbn [D_i_j]. rewrite Hnum. reflexivity.
  - intros env Hh Hr2 Hmass Hnmass Hrho Hnrho.
    assert (Hscale : forall k d : R,
               (Rabs (k - 1) <= 1e-9 ->
                Documented.within 1e-9 (k * d) d)%R).
    { intros k d Hk. unfold Documented.within.
      replace (k * d - d)%R with ((k - 1) * d)%R by ring.
      rewrite Rabs_mult.
      apply Rmult_le_compat_r; [apply Rabs_pos|exact Hk]. }
    split.
    + rewrite (dWdr_expr_real env Hh). apply Hscale. apply M_PI_close.
    + rewrite (D_i_j_expr_real env Hh Hr2 Hmass Hnmass Hrho Hnrho).
      apply Hscale. apply (D_i_j_factor_close env Hh).
  - split.
    { eexists. vm_compute. reflexivity. }
    intros e He. apply add_to_neighbor_list_edge in He. subst e.
    unfold Documented.within.
    rewrite ref_dWdr_value, ref_D_i_j_value, ref_dist_value.
    change (h ref_system) with 1. change (mass ref_owner) with 1.
    change (mass ref_neighbor) with 1. change (rho ref_owner) with 1.
    change (rho ref_neighbor) with 1.
    rewrite F2R_1.
    rewrite ref_D_i_j_documented, ref_dWdr_documented.
    destruct inv_PI_bounds as [Hlo Hhi].
    assert (Hneg : Rabs (- (315 / 32) * / PI) = (315 / 32 * / PI)%R)
      by (rewrite Rabs_left; lra).
    assert (Hpos : Rabs (315 / 32 / 0.26 * / PI) = (315 / 32 / 0.26 * / PI)%R)
      by (apply Rabs_pos_eq; lra).
    rewrite Hneg, Hpos.
    split; apply Rabs_le; lra.
Qed.

Lemma edge_closed_forms_witness :
  add_to_neighbor_list ANN_DBL_MAX ref_owner ref_neighbor ref_system 0.25
  = Returned
      (1%Z,
       push_neighbor ref_owner
         {| data := ref_neighbor;
            dist := 0.5;
            dWdr := Formula.eval_double
                      (Formula.inputs ANN_DBL_MAX ref_owner ref_neighbor
                                      ref_system 0.25)
                      Formula.dWdr_expr;
            D_i_j := Formula.eval_double
                       (Formula.inputs ANN_DBL_MAX ref_owner ref_neighbor
                                       ref_system 0.25)
                       Formula.D_i_j_expr |}) [].
Proof.
  apply (proj1 edge_closed_forms ANN_DBL_MAX _ ref_owner ref_neighbor
               ref_system 0.25).
  - vm_compute. reflexivity.
  - vm_compute. reflexivity.
Defined.

End PairFacts.

(* ================================================================== *)
(** * Constructors                                                     *)
(* ================================================================== *)

Module ConstructorFacts.

Import Spatialpy.
Local Open Scope Z_scope.

(** Objects in storage filled with zeros. *)
Definition zeroed_system : ParticleSystem unit :=
  {| dimension := 0; boundary_conditions := []; static_domain := 0;
     num_stoch_species := 0; num_stoch_rxns := 0;
     num_chem_species := 0; num_chem_rxns := 0; num_types := 0;
     gravity := []; num_data_fn := 0; kdTree_initialize := false;
     h := 0%float; kdTree := tt; particles := []; x_index := [] |}.

Definition zeroed_particle : Particle :=
  {| id := 0; x := mkDouble3 0 0 0; v := mkDouble3 0 0 0;
     mass := 0%float; rho := 0%float; nu := 0%float; solidTag := 0;
     neighbors := [] |}.

(** C8 (what the code does instead): the members named like constructor
    parameters are not assigned.  After [ParticleSystem(...)] the six
    counts, and after [Particle(id)] the id, are what the storage held
    before, whatever the arguments: built in zeroed storage from the
    arguments 2, 3, 4, 5, 6, 7, the system has all six counts 0, and
    [Particle(7)] has id 0. *)
Theorem constructors_keep_storage :
  (forall (T : Type) (storage : ParticleSystem T)
          (types chem_species chem_rxns stoch_species stoch_rxns data_fn : Z),
     let system :=
       ParticleSystem_ctor storage types chem_species chem_rxns
                           stoch_species stoch_rxns data_fn in
     num_types system = num_types storage
     /\ num_chem_species system = num_chem_species storage
     /\ num_chem_rxns system = num_chem_rxns storage
     /\ num_stoch_species system = num_stoch_species storage
     /\ num_stoch_rxns system = num_stoch_rxns storage
     /\ num_data_fn system = num_data_fn storage)
  /\ (forall (storage : Particle) (i : Z),
        id (Particle_ctor storage i) = id storage)
  /\ (let system := ParticleSystem_ctor zeroed_system 2 3 4 5 6 7 in
      num_types system = 0 /\ num_chem_species system = 0
      /\ num_chem_rxns system = 0 /\ num_stoch_species system = 0
      /\ num_stoch_rxns system = 0 /\ num_data_fn system = 0)
  /\ id (Particle_ctor zeroed_particle 7) = 0.
Proof.
  repeat split.
Qed.

End ConstructorFacts.

(* ================================================================== *)
(** * Neighbour search                                                 *)
(* ================================================================== *)

Module SearchFacts.

Import Spatialpy.
Local Open Scope float_scope.
#[local] Set Warnings "-inexact-float".

Lemma bind_Returned {A B : Type} (m : outcome A) (f : A -> outcome B)
    (b : B) (out : stdout) :
  bind m f = Returned b out ->
  exists a o o', m = Returned a o /\ f a = Returned b o' /\ out = o ++ o'.
Proof.
  destruct m as [a o|s o|]; simpl; try discriminate.
  destruct (f a) as [b' o'|s o'|] eqn:Hf; try discriminate.
  intros Heq. injection Heq as <- <-.
  exists a, o, o'. repeat split. exact Hf.
Qed.

Section Search.

Variable ANN_DIST_INF : float.
Variable ANN_NULL_IDX : Z.
Variable debug_flag : Z.
Context {T : Type} `{ANNpointSet T}.

#[local] Abbreviation add_to_neighbor_list :=
  (add_to_neighbor_list ANN_DIST_INF).
#[local] Abbreviation find_neighbors_loop :=
  (find_neighbors_loop ANN_DIST_INF ANN_NULL_IDX debug_flag).
#[local] Abbreviation find_neighbors :=
  (find_neighbors ANN_DIST_INF ANN_NULL_IDX debug_flag).

(** ** Both modes of [find_neighbors] *)

(** The loop stops at the first [ANN_NULL_IDX]: the filling of the arrays
    is never looked at. *)
Lemma find_neighbors_loop_padding (system : ParticleSystem T)
    (hits : list (Z * float)) (j j' : nat) (me : Particle) :
  find_neighbors_loop me system
    (map fst hits ++ repeat ANN_NULL_IDX j)
    (map snd hits ++ repeat ANN_DIST_INF j')
  = find_neighbors_loop me system (map fst hits) (map snd hits).
Proof.
  revert me. induction hits as [|[idx d] hits IH]; intros me.
  - destruct j as [|j]; [reflexivity|].
    destruct j' as [|j']; [reflexivity|].
    simpl. rewrite Z.eqb_refl. reflexivity.
  - simpl. destruct (idx =? ANN_NULL_IDX)%Z; [reflexivity|].
    destruct (particles_at system idx) as [neighbor|]; [|reflexivity].
    destruct (Spatialpy.add_to_neighbor_list ANN_DIST_INF me neighbor system d)
      as [[ret me'] o|s o|]; simpl; try reflexivity.
    destruct (2 <? debug_flag)%Z; simpl; rewrite IH; reflexivity.
Qed.

Lemma firstn_of_repeat {A : Type} (a : A) (n m : nat) :
  firstn n (repeat a m) = repeat a (Nat.min n m).
Proof.
  revert m. induction n as [|n IH]; intros [|m]; simpl; try reflexivity.
  rewrite IH. reflexivity.
Qed.

Lemma pad_enough {A : Type} (k : Z) (fill : A) (l : list A) :
  (Z.of_nat (length l) <= k)%Z ->
  pad k fill l = l ++ repeat fill (Z.to_nat k - length l).
Proof.
  intros Hk. unfold pad.
  rewrite firstn_app, firstn_all2 by lia.
  f_equal. rewrite firstn_of_repeat. f_equal. lia.
Qed.

Lemma firstn_pad {A : Type} (k : Z) (fill : A) (l : list A) :
  firstn (Z.to_nat k) (pad k fill l) = pad k fill l.
Proof.
  unfold pad. rewrite firstn_firstn, Nat.min_id. reflexivity.
Qed.

(** C6: over one and the same index, [find_neighbors] does the same in
    exact mode ([k] = the number of points in range) and in approximate
    mode ([k] = the number of indexed points): the same edges are appended
    in the same order, and the same calls return, exit or are undefined.
    The index is any point set whose fixed-radius search keeps its contract
    ([ANNfixedRadius]). *)
Theorem find_neighbors_modes_agree
    (contract : ANNfixedRadius ANN_DIST_INF ANN_NULL_IDX)
    (me : Particle) (system : ParticleSystem T) :
  find_neighbors me system true = find_neighbors me system false.
Proof.
  unfold Spatialpy.find_neighbors.
  destruct (query_point me system) as [queryPt|]; [|reflexivity].
  unfold get_k__exact, get_k__approx.
  destruct (annFRhits_exist (kdTree system) queryPt (h system * h system))
    as (hits & Hcount & Hsearch).
  rewrite !Hsearch. cbn [pts_in_range nn_idx dists].
  rewrite !firstn_pad.
  rewrite !pad_enough by (rewrite ?length_map; lia).
  rewrite !find_neighbors_loop_padding. reflexivity.
Qed.

(** ** Invariant: edges stay within the support radius *)

(** A coefficient that is a number was computed from numbers [h] and [r]. *)
Lemma D_i_j_closed_form_numbers (mi mj rhoi rhoj hh r2 : float) :
  is_nan (D_i_j_closed_form mi mj rhoi rhoj hh r2) = false ->
  is_nan hh = false /\ is_nan (PrimFloat.sqrt r2) = false.
Proof.
  unfold D_i_j_closed_form, wfd_closed_form. intros HD.
  apply IEEE.div_not_nan in HD. destruct HD as [HD _].
  apply IEEE.mul_not_nan in HD. destruct HD as [_ HD].
  do 4 (apply IEEE.mul_not_nan in HD; destruct HD as [HD _]).
  apply IEEE.mul_not_nan in HD. destruct HD as [_ HD].
  apply IEEE.sub_not_nan in HD. exact HD.
Qed.

Lemma add_to_neighbor_list_within (me neighbor : Particle)
    (system : ParticleSystem T) (r2 : float)
    (ret : Z) (me' : Particle) (out : stdout) :
  add_to_neighbor_list me neighbor system r2 = Returned (ret, me') out ->
  edges_within (h system) me -> edges_within (h system) me'.
Proof.
  rewrite PairFacts.add_to_neighbor_list_eq. cbv zeta.
  destruct (h system <? _) eqn:Hlt.
  - intros Heq. injection Heq as _ <- _. trivial.
  - destruct (is_nan _) eqn:Hnan; [discriminate|].
    intros Heq. injection Heq as _ <- _. intros Hme.
    unfold edges_within, push_neighbor. cbn [neighbors].
    apply Forall_app. split; [exact Hme|].
    constructor; [|constructor].
    unfold edge_of in Hnan |- *. cbn [D_i_j dist] in Hnan |- *.
    apply D_i_j_closed_form_numbers in Hnan. destruct Hnan as [Hh Hr].
    apply IEEE.not_gt_le; assumption.
Qed.

Lemma find_neighbors_loop_within (system : ParticleSystem T)
    (idxs : list Z) (ds : list float) (me me' : Particle) (out : stdout) :
  find_neighbors_loop me system idxs ds = Returned me' out ->
  edges_within (h system) me -> edges_within (h system) me'.
Proof.
  revert ds me out. induction idxs as [|idx idxs IH]; intros ds me out.
  - simpl. intros Heq. injection Heq as <- _. trivial.
  - destruct ds as [|d ds]; simpl.
    + intros Heq. injection Heq as <- _. trivial.
    + destruct (idx =? ANN_NULL_IDX)%Z.
      * intros Heq. injection Heq as <- _. trivial.
      * destruct (particles_at system idx) as [neighbor|]; [|discriminate].
        intros Hb Hme.
        apply bind_Returned in Hb.
        destruct Hb as ([ret me1] & o & o' & Hadd & Hb & _).
        apply bind_Returned in Hb.
        destruct Hb as (u & o1 & o2 & _ & Hloop & _).
        apply (IH _ _ _ Hloop).
        apply (add_to_neighbor_list_within _ _ _ _ _ _ _ Hadd Hme).
Qed.

Lemma find_neighbors_within (system : ParticleSystem T) (use_exact_k : bool)
    (me me' : Particle) (out : stdout) :
  find_neighbors me system use_exact_k = Returned me' out ->
  edges_within (h system) me -> edges_within (h system) me'.
Proof.
  unfold Spatialpy.find_neighbors.
  destruct (query_point me system) as [queryPt|]; [|discriminate].
  apply find_neighbors_loop_within.
Qed.

Lemma Forall_replace_nth {A : Type} (P : A -> Prop) (l : list A)
    (i : nat) (a : A) :
  Forall P l -> P a -> Forall P (replace_nth l i a).
Proof.
  intros Hl Ha. revert i.
  induction Hl as [|b l Hb Hl IH]; intros [|i]; simpl;
    constructor; auto.
Qed.

#[local] Abbreviation step := (step ANN_DIST_INF ANN_NULL_IDX debug_flag).
#[local] Abbreviation run := (run ANN_DIST_INF ANN_NULL_IDX debug_flag).

Lemma step_within (system system' : ParticleSystem T) (c : call)
    (out : stdout) :
  step system c = Returned system' out ->
  all_edges_within system ->
  all_edges_within system' /\ h system' = h system.
Proof.
  unfold all_edges_within.
  destruct c as [i neighbor r2|i use_exact_k]; simpl;
    destruct (nth_error (particles system) i) as [me|] eqn:Hme;
    try discriminate; intros Hb Hall;
    apply bind_Returned in Hb;
    destruct Hb as (a & o & o' & Hcall & Hret & _);
    injection Hret as <- _; cbn [h particles set_particle];
    (split; [|reflexivity]);
    apply Forall_replace_nth; try exact Hall;
    apply nth_error_In in Hme;
    pose proof (proj1 (Forall_forall _ _) Hall _ Hme) as Hin.
  - destruct a as [ret me'].
    apply (add_to_neighbor_list_within _ _ _ _ _ _ _ Hcall Hin).
  - apply (find_neighbors_within _ _ _ _ _ Hcall Hin).
Qed.

(** C7: when every edge of every particle of the system has its stored
    distance [r <= h], this is still so after any sequence of
    [add_to_neighbor_list] and [find_neighbors] calls made on particles of
    the system, and the calls leave [h] as it is. *)
Theorem edges_within_support_invariant (system system' : ParticleSystem T)
    (calls : list call) (out : stdout) :
  all_edges_within system ->
  run system calls = Returned system' out ->
  all_edges_within system' /\ h system' = h system.
Proof.
  revert system out. induction calls as [|c calls IH]; intros system out Hall.
  - simpl. intros Heq. injection Heq as <- _. split; [exact Hall|reflexivity].
  - simpl. intros Hb. apply bind_Returned in Hb.
    destruct Hb as (system1 & o & o' & Hstep & Hrun & _).
    destruct (step_within _ _ _ _ Hstep Hall) as [Hall1 Hh1].
    destruct (IH _ _ Hall1 Hrun) as [Hall' Hh'].
    split; [exact Hall'|congruence].
Qed.

End Search.

(** ** The brute-force point set keeps the contract *)

Lemma mk_insert_length (kv : float) (inf : Z) (mk : list (Z * float)) :
  length (BruteForce.mk_insert kv inf mk) = S (length mk).
Proof.
  induction mk as [|[i d] mk IH]; simpl; [reflexivity|].
  destruct (kv <? d); simpl; [reflexivity|]. rewrite IH. reflexivity.
Qed.

Lemma hits_from_length (q : list float) (sqRad : float)
    (pts : list (list float)) (i : Z) (mk : list (Z * float)) :
  (length (BruteForce.hits_from q sqRad pts i mk) <= length mk + length pts)%nat.
Proof.
  revert i mk. induction pts as [|p pts IH]; intros i mk; simpl; [lia|].
  destruct (BruteForce.annDist q p <=? sqRad).
  - specialize (IH (i + 1)%Z (BruteForce.mk_insert (BruteForce.annDist q p) i mk)).
    rewrite mk_insert_length in IH. lia.
  - specialize (IH (i + 1)%Z mk). lia.
Qed.

Lemma BruteForce_contract (inf : float) (null : Z) :
  @ANNfixedRadius inf null _ (BruteForce.pointSet inf null).
Proof.
  constructor. intros pts q sqRad.
  exists (BruteForce.hits pts q sqRad). split.
  - pose proof (hits_from_length q sqRad pts 0 []) as Hlen.
    unfold BruteForce.hits. simpl in *. lia.
  - intros k. reflexivity.
Qed.

(** ** A line of four particles *)

(** Particles at 0, 0.5, 0.75 and 2 on the first axis, [h = 1]. *)
Definition line : list Particle :=
  [particle_at 0 0 1 1; particle_at 1 0.5 1 1;
   particle_at 2 0.75 2 1; particle_at 3 2 1 1].
Definition line_system : ParticleSystem (list (list float)) :=
  system_of 1 line.
Definition line_index : ANNpointSet (list (list float)) :=
  BruteForce.pointSet ANN_DBL_MAX ANN_NULL.

(** The first particle finds itself and its two neighbours within [h]. *)
Example line_find_neighbors :
  match @find_neighbors ANN_DBL_MAX ANN_NULL 0 _ line_index
          (particle_at 0 0 1 1) line_system false with
  | Returned me' _ =>
      map (fun e => (id (data e), dist e)) (neighbors me')
  | _ => []
  end = [(0%Z, 0); (1%Z, 0.5); (2%Z, 0.75)].
Proof. vm_compute. reflexivity. Qed.

Lemma find_neighbors_modes_agree_witness :
  @find_neighbors ANN_DBL_MAX ANN_NULL 3 _ line_index
     (particle_at 0 0 1 1) line_system true
  = @find_neighbors ANN_DBL_MAX ANN_NULL 3 _ line_index
      (particle_at 0 0 1 1) line_system false.
Proof.
  apply (@find_neighbors_modes_agree ANN_DBL_MAX ANN_NULL 3 _ line_index
           (BruteForce_contract ANN_DBL_MAX ANN_NULL)).
Defined.

(** Four calls on the line, and the system they leave. *)
Definition line_calls : list call :=
  [call_find_neighbors 0 true;
   call_find_neighbors 1 false;
   call_add_to_neighbor_list 3 (particle_at 2 0.75 2 1) ANN_DBL_MAX;
   call_add_to_neighbor_list 2 (particle_at 1 0.5 1 1) ANN_DBL_MAX].

Definition line_after : ParticleSystem (list (list float)) :=
  match @run ANN_DBL_MAX ANN_NULL 0 _ line_index line_system line_calls with
  | Returned system' _ => system'
  | _ => line_system
  end.

Example line_after_edges :
  map (fun p => length (neighbors p)) (particles line_after) = [3; 3; 1; 0]%nat.
Proof. vm_compute. reflexivity. Qed.

Lemma edges_within_support_invariant_witness :
  all_edges_within line_after /\ h line_after = h line_system.
Proof.
  apply (@edges_within_support_invariant ANN_DBL_MAX ANN_NULL 0 _ line_index
           line_system line_after line_calls []).
  - repeat constructor.
  - vm_compute. reflexivity.
Defined.

End SearchFacts.

(* ================================================================== *)
(** * Order of the event schedule                                      *)
(* ================================================================== *)

Module ScheduleFacts.

Import EventSchedule.
Local Open Scope float_scope.
#[local] Set Warnings "-inexact-float".

(** The schedule is the insertion sort of the inserted entries. *)
Definition sorted_from (s : schedule) (l : list entry) : schedule :=
  fold_left (fun s e => insert_entry e s) l s.

Definition ascending (s : schedule) : Prop :=
  StronglySorted (fun a b => (time a <=? time b) = true) s.

Definition numbers (l : list entry) : Prop :=
  Forall (fun e => is_nan (time e) = false) l.

Lemma sorted_from_snoc (s : schedule) (l : list entry) (e : entry) :
  sorted_from s (l ++ [e]) = insert_entry e (sorted_from s l).
Proof. unfold sorted_from. rewrite fold_left_app. reflexivity. Qed.

Lemma insert_entry_In (e x : entry) (s : schedule) :
  In x (insert_entry e s) <-> x = e \/ In x s.
Proof.
  induction s as [|e' s IH]; simpl.
  - intuition congruence.
  - destruct (time e <? time e'); simpl; rewrite ?IH; intuition congruence.
Qed.

Lemma insert_entry_perm (e : entry) (s : schedule) :
  Permutation (insert_entry e s) (e :: s).
Proof.
  induction s as [|e' s IH]; simpl; [reflexivity|].
  destruct (time e <? time e'); [reflexivity|].
  rewrite IH. apply perm_swap.
Qed.

Lemma sorted_from_perm (l : list entry) :
  Permutation (sorted_from [] l) l.
Proof.
  induction l as [|e l IH] using rev_ind; [reflexivity|].
  rewrite sorted_from_snoc, insert_entry_perm, IH.
  apply Permutation_cons_append.
Qed.

Lemma insert_entry_ascending (e : entry) (s : schedule) :
  is_nan (time e) = false -> numbers s ->
  ascending s -> ascending (insert_entry e s).
Proof.
  intros He Hs Hasc. induction Hasc as [|e' s Hasc IH Hle]; simpl.
  - repeat constructor.
  - inversion Hs as [|? ? He' Hs']; subst.
    destruct (time e <? time e') eqn:Hlt.
    + constructor; [constructor; assumption|].
      constructor; [apply IEEE.lt_le; exact Hlt|].
      apply Forall_forall. intros y Hy.
      apply IEEE.lt_le, (IEEE.lt_le_trans _ _ _ Hlt).
      exact (proj1 (Forall_forall _ _) Hle y Hy).
    + constructor; [apply IH; exact Hs'|].
      apply Forall_forall. intros y Hy.
      apply insert_entry_In in Hy. destruct Hy as [-> | Hy].
      * apply IEEE.not_gt_le; assumption.
      * exact (proj1 (Forall_forall _ _) Hle y Hy).
Qed.

Lemma sorted_from_ascending (l : list entry) :
  numbers l -> ascending (sorted_from [] l) /\ numbers (sorted_from [] l).
Proof.
  induction l as [|e l IH] using rev_ind; intros Hl.
  - split; constructor.
  - apply Forall_app in Hl. destruct Hl as [Hl He].
    inversion He as [|? ? He' _]; subst.
    destruct (IH Hl) as [Hasc Hnum].
    rewrite sorted_from_snoc. split.
    + apply insert_entry_ascending; assumption.
    + apply Forall_forall. intros y Hy. apply insert_entry_In in Hy.
      destruct Hy as [-> | Hy]; [exact He'|].
      exact (proj1 (Forall_forall _ _) Hnum y Hy).
Qed.

(** ** Taking an entity out commutes with sorting *)

Lemma insert_entry_front (e : entry) (s : schedule) :
  Forall (fun y => (time e <? time y) = true) s ->
  insert_entry e s = e :: s.
Proof.
  intros Hs. destruct s as [|e' s]; [reflexivity|].
  inversion Hs as [|? ? Hlt _]; subst. simpl. rewrite Hlt. reflexivity.
Qed.

Lemma filter_insert_entry (p : entry -> bool) (e : entry) (s : schedule) :
  ascending s ->
  filter p (insert_entry e s)
  = if p e then insert_entry e (filter p s) else filter p s.
Proof.
  intros Hasc. induction Hasc as [|e' s Hasc IH Hle]; simpl.
  - destruct (p e); reflexivity.
  - destruct (time e <? time e') eqn:Hlt; simpl.
    + destruct (p e) eqn:Hpe; [|reflexivity].
      destruct (p e') eqn:Hpe'.
      * simpl. rewrite Hlt. reflexivity.
      * symmetry. apply insert_entry_front.
        apply Forall_forall. intros y Hy.
        apply filter_In in Hy. destruct Hy as [Hy _].
        apply (IEEE.lt_le_trans _ _ _ Hlt).
        exact (proj1 (Forall_forall _ _) Hle y Hy).
    + rewrite IH. destruct (p e'), (p e); simpl; rewrite ?Hlt; reflexivity.
Qed.

Lemma unschedule_sorted_from (i : Z) (l : list entry) :
  numbers l ->
  unschedule i (sorted_from [] l) = sorted_from [] (unschedule i l).
Proof.
  unfold unschedule.
  induction l as [|e l IH] using rev_ind; intros Hl; [reflexivity|].
  apply Forall_app in Hl. destruct Hl as [Hl He].
  rewrite sorted_from_snoc, filter_app.
  rewrite filter_insert_entry by (apply sorted_from_ascending; exact Hl).
  rewrite (IH Hl). simpl.
  destruct (negb (entity_id e =? i)%Z).
  - rewrite sorted_from_snoc. reflexivity.
  - rewrite app_nil_r. reflexivity.
Qed.

Lemma scheduled_insert_entry (i : Z) (e : entry) (s : schedule) :
  scheduled i (insert_entry e s)
  = ((entity_id e =? i)%Z || scheduled i s)%bool.
Proof.
  unfold scheduled. induction s as [|e' s IH]; simpl; [reflexivity|].
  destruct (time e <? time e'); simpl; [reflexivity|].
  rewrite IH.
  destruct (entity_id e' =? i)%Z, (entity_id e =? i)%Z; reflexivity.
Qed.

Lemma scheduled_sorted_from (i : Z) (l : list entry) :
  scheduled i (sorted_from [] l) = scheduled i l.
Proof.
  induction l as [|e l IH] using rev_ind; [reflexivity|].
  rewrite sorted_from_snoc, scheduled_insert_entry, IH.
  unfold scheduled. rewrite existsb_app. simpl.
  rewrite orb_false_r. apply orb_comm.
Qed.

(** ** The schedule and the inserted entries *)

Definition numeric (ops : list operation) : Prop :=
  Forall (fun o => is_nan (operation_time o) = false) ops.

Lemma numbers_unschedule (i : Z) (l : list entry) :
  numbers l -> numbers (unschedule i l).
Proof.
  intros Hl. apply Forall_forall. intros y Hy.
  apply filter_In in Hy. destruct Hy as [Hy _].
  exact (proj1 (Forall_forall _ _) Hl y Hy).
Qed.

Lemma apply_reference_numbers (l : list entry) (o : operation) :
  is_nan (operation_time o) = false -> numbers l ->
  numbers (apply_reference l o).
Proof.
  intros Ho Hl. destruct o as [i t|i t]; simpl in *.
  - apply Forall_app. split; [exact Hl|]. repeat constructor. exact Ho.
  - destruct (scheduled i l); [|exact Hl].
    apply Forall_app. split; [apply numbers_unschedule; exact Hl|].
    repeat constructor. exact Ho.
Qed.

Lemma apply_sorted (l : list entry) (o : operation) :
  numbers l ->
  apply (sorted_from [] l) o = sorted_from [] (apply_reference l o).
Proof.
  intros Hl. destruct o as [i t|i t]; simpl.
  - unfold insert. rewrite sorted_from_snoc. reflexivity.
  - unfold update. rewrite scheduled_sorted_from.
    destruct (scheduled i l); [|reflexivity].
    unfold insert. rewrite sorted_from_snoc, unschedule_sorted_from by exact Hl.
    reflexivity.
Qed.

Lemma fold_apply_sorted (ops : list operation) (l : list entry) :
  numeric ops -> numbers l ->
  fold_left apply ops (sorted_from [] l)
  = sorted_from [] (fold_left apply_reference ops l)
  /\ numbers (fold_left apply_reference ops l).
Proof.
  revert l. induction ops as [|o ops IH]; intros l Hops Hl; simpl.
  - split; [reflexivity|exact Hl].
  - inversion Hops as [|? ? Ho Hops']; subst.
    rewrite apply_sorted by exact Hl.
    apply IH; [exact Hops'|].
    apply apply_reference_numbers; assumption.
Qed.

Lemma schedule_of_sorted (ops : list operation) :
  numeric ops ->
  schedule_of ops = sorted_from [] (inserted ops) /\ numbers (inserted ops).
Proof.
  intros Hops. apply (fold_apply_sorted ops [] Hops). constructor.
Qed.

(** ** The first entry of the schedule *)

Lemma hd_insert_entry (e : entry) (s : schedule) :
  hd_error (insert_entry e s) = older_min (hd_error s) e.
Proof.
  destruct s as [|e' s]; simpl; [reflexivity|].
  destruct (time e <? time e'); reflexivity.
Qed.

Lemma hd_sorted_from (l : list entry) :
  hd_error (sorted_from [] l) = earliest_min l.
Proof.
  unfold earliest_min.
  induction l as [|e l IH] using rev_ind; [reflexivity|].
  rewrite sorted_from_snoc, hd_insert_entry, IH, fold_left_app.
  reflexivity.
Qed.

(** The scan returns the oldest of the entries of smallest time. *)
Lemma earliest_min_spec (l : list entry) :
  numbers l ->
  match earliest_min l with
  | None => l = []
  | Some m =>
      exists older newer,
        l = older ++ m :: newer
        /\ Forall (fun e => (time m <? time e) = true) older
        /\ Forall (fun e => (time m <=? time e) = true) newer
  end.
Proof.
  unfold earliest_min.
  induction l as [|a l IH] using rev_ind; intros Hl; [reflexivity|].
  apply Forall_app in Hl. destruct Hl as [Hl Ha].
  inversion Ha as [|? ? Ha' _]; subst.
  specialize (IH Hl). rewrite fold_left_app. simpl.
  destruct (fold_left older_min l None) as [m|]; simpl.
  - destruct IH as (older & newer & -> & Holder & Hnewer).
    destruct (time a <? time m) eqn:Hlt.
    + exists (older ++ m :: newer), []. split; [reflexivity|].
      split; [|constructor].
      apply Forall_app. split; [|constructor].
      * apply Forall_forall. intros y Hy.
        apply (IEEE.lt_le_trans _ _ _ Hlt), IEEE.lt_le.
        exact (proj1 (Forall_forall _ _) Holder y Hy).
      * exact Hlt.
      * apply Forall_forall. intros y Hy.
        apply (IEEE.lt_le_trans _ _ _ Hlt).
        exact (proj1 (Forall_forall _ _) Hnewer y Hy).
    + exists older, (newer ++ [a]). split.
      { rewrite <- app_assoc. reflexivity. }
      split; [exact Holder|].
      apply Forall_app. split; [exact Hnewer|].
      repeat constructor. apply IEEE.not_gt_le; try assumption.
      apply Forall_app in Hl. destruct Hl as [_ Hm].
      inversion Hm; assumption.
  - subst l. exists [], []. repeat split; constructor.
Qed.

(** C9: after any sequence of [insert] and [update] operations whose times
    are numbers, [pop_min] of an empty schedule has nothing to return, and
    otherwise returns an entry [m] that is among the inserted entries, whose
    time is the smallest of all and strictly smaller than the time of
    every entry inserted before it (of several entries of the smallest time
    the one inserted first is returned), and leaves the other entries in
    the schedule. *)
Theorem pop_min_earliest_smallest (ops : list operation) :
  numeric ops ->
  match pop_min (schedule_of ops) with
  | None => inserted ops = []
  | Some (m, rest) =>
      exists older newer,
        inserted ops = older ++ m :: newer
        /\ Forall (fun e => (time m <? time e) = true) older
        /\ Forall (fun e => (time m <=? time e) = true) newer
        /\ Permutation rest (older ++ newer)
  end.
Proof.
  intros Hops. destruct (schedule_of_sorted ops Hops) as [Hs Hnum].
  pose proof (hd_sorted_from (inserted ops)) as Hhd.
  pose proof (earliest_min_spec (inserted ops) Hnum) as Hmin.
  pose proof (sorted_from_perm (inserted ops)) as Hperm.
  rewrite <- Hs in Hhd, Hperm. rewrite <- Hhd in Hmin.
  destruct (schedule_of ops) as [|m rest]; simpl in *; [exact Hmin|].
  destruct Hmin as (older & newer & Heq & Holder & Hnewer).
  exists older, newer. repeat split; try assumption.
  rewrite Heq in Hperm.
  apply Permutation_cons_app_inv in Hperm. exact Hperm.
Qed.

(** Two entities at time 1, a third one moved there later, a fourth one
    that never fires. *)
Definition sample : list operation :=
  [Insert 1 2; Insert 2 1; Insert 3 1; Update 1 0.5; Update 1 1;
   Insert 4 infinity].

Example sample_pop_min :
  pop_min (schedule_of sample)
  = Some (mkEntry 2 1, [mkEntry 3 1; mkEntry 1 1; mkEntry 4 infinity]).
Proof. vm_compute. reflexivity. Qed.

Lemma pop_min_earliest_smallest_witness :
  match pop_min (schedule_of sample) with
  | None => inserted sample = []
  | Some (m, rest) =>
      exists older newer,
        inserted sample = older ++ m :: newer
        /\ Forall (fun e => (time m <? time e) = true) older
        /\ Forall (fun e => (time m <=? time e) = true) newer
        /\ Permutation rest (older ++ newer)
  end.
Proof.
  apply (pop_min_earliest_smallest sample).
  repeat constructor.
Defined.

End ScheduleFacts.

(* ================================================================== *)
(** * Signs in binary64 arithmetic                                     *)
(* ================================================================== *)

(** The sign rules of IEEE-754 products, quotients, sums and square roots,
    as far as the coefficient and the distances need them. *)
Module IEEEsigns.

Local Open Scope float_scope.

(** A number whose sign bit is [b]. *)
Definition sign_bit (b : bool) (s : spec_float) : Prop :=
  match s with
  | S754_zero b' | S754_infinity b' | S754_finite b' _ _ => b' = b
  | S754_nan => False
  end.

(** A number that is zero (of either sign) or has sign bit [b]: with
    [b = false] a number [>= 0], with [b = true] a number [<= 0]. *)
Definition sign_or_zero (b : bool) (s : spec_float) : Prop :=
  match s with
  | S754_zero _ => True
  | S754_infinity b' | S754_finite b' _ _ => b' = b
  | S754_nan => False
  end.

Definition zero_or_finite (s : spec_float) : Prop :=
  match s with
  | S754_zero _ | S754_finite _ _ _ => True
  | _ => False
  end.

Lemma sign_bit_or_zero (b : bool) (s : spec_float) :
  sign_bit b s -> sign_or_zero b s.
Proof. destruct s; simpl; auto. Qed.

Lemma sign_bit_exists (s : spec_float) :
  s <> S754_nan -> exists b, sign_bit b s.
Proof. destruct s as [b|b| |b m e]; intros Hs; try congruence; exists b; reflexivity. Qed.

Lemma binary_round_aux_sign (s : bool) (m e : Z) (l : location) :
  binary_round_aux prec emax s m e l = S754_nan
  \/ sign_bit s (binary_round_aux prec emax s m e l).
Proof.
  unfold binary_round_aux.
  destruct (shr_fexp prec emax m e l) as [mrs' e'].
  destruct (shr_fexp prec emax _ e' loc_Exact) as [mrs'' e''].
  destruct (shr_m mrs''); simpl; auto.
  destruct (e'' <=? _)%Z; simpl; auto.
Qed.

Lemma SFmul_sign (a b : bool) (x y : spec_float) :
  sign_bit a x -> sign_bit b y ->
  SF64mul x y = S754_nan \/ sign_bit (xorb a b) (SF64mul x y).
Proof.
  unfold SF64mul.
  destruct x as [sx|sx| |sx mx ex], y as [sy|sy| |sy my ey]; simpl;
    intros Hx Hy; subst; simpl; auto.
  apply binary_round_aux_sign.
Qed.

Lemma SFmul_sign_or_zero (a b : bool) (x y : spec_float) :
  sign_or_zero a x -> sign_or_zero b y ->
  SF64mul x y = S754_nan \/ sign_or_zero (xorb a b) (SF64mul x y).
Proof.
  unfold SF64mul.
  destruct x as [sx|sx| |sx mx ex], y as [sy|sy| |sy my ey]; simpl;
    intros Hx Hy; subst; simpl; auto.
  destruct (binary_round_aux_sign (xorb a b) (Z.pos (mx * my)) (ex + ey)
                                  loc_Exact) as [Hn | Hs]; auto.
  right. apply sign_bit_or_zero. exact Hs.
Qed.

Lemma SFdiv_sign (a b : bool) (x y : spec_float) :
  sign_bit a x -> sign_bit b y ->
  SF64div x y = S754_nan \/ sign_bit (xorb a b) (SF64div x y).
Proof.
  unfold SF64div.
  destruct x as [sx|sx| |sx mx ex], y as [sy|sy| |sy my ey]; simpl;
    intros Hx Hy; subst; simpl; auto.
  destruct (SFdiv_core_binary prec emax (Z.pos mx) ex (Z.pos my) ey)
    as [[mz ez] lz].
  apply binary_round_aux_sign.
Qed.

Lemma SFdiv_sign_or_zero (a b : bool) (x y : spec_float) :
  sign_or_zero a x -> sign_bit b y ->
  SF64div x y = S754_nan \/ sign_or_zero (xorb a b) (SF64div x y).
Proof.
  unfold SF64div.
  destruct x as [sx|sx| |sx mx ex], y as [sy|sy| |sy my ey]; simpl;
    intros Hx Hy; subst; simpl; auto.
  destruct (SFdiv_core_binary prec emax (Z.pos mx) ex (Z.pos my) ey)
    as [[mz ez] lz].
  destruct (binary_round_aux_sign (xorb a b) mz ez lz) as [Hn | Hs]; auto.
  right. apply sign_bit_or_zero. exact Hs.
Qed.

Lemma SFadd_sign (x y : spec_float) :
  sign_or_zero false x -> sign_bit false y ->
  SF64add x y = S754_nan \/ sign_bit false (SF64add x y).
Proof.
  unfold SF64add.
  destruct x as [sx|sx| |sx mx ex], y as [sy|sy| |sy my ey]; simpl;
    intros Hx Hy; subst; simpl; auto.
  - destruct sx; simpl; auto.
  - unfold binary_round.
    destruct (shl_align _ _ _) as [mz ez].
    apply binary_round_aux_sign.
Qed.

Lemma SFsqrt_sign (x : spec_float) :
  SF64sqrt x = S754_nan
  \/ (sign_or_zero false x /\ sign_or_zero false (SF64sqrt x)).
Proof.
  unfold SF64sqrt.
  destruct x as [sx|sx| |sx mx ex]; simpl; auto.
  - destruct sx; simpl; auto.
  - destruct sx; simpl; auto.
    destruct (SFsqrt_core_binary prec emax (Z.pos mx) ex) as [[mz ez] lz].
    destruct (binary_round_aux_sign false mz ez lz) as [Hn | Hs]; auto.
    right. split; [reflexivity|]. apply sign_bit_or_zero. exact Hs.
Qed.

(** ** On [float] *)

Definition has_sign (b : bool) (x : float) : Prop := sign_bit b (Prim2SF x).
Definition has_sign_or_zero (b : bool) (x : float) : Prop :=
  sign_or_zero b (Prim2SF x).

Lemma nan_or (x : float) (P : Prop) :
  (Prim2SF x = S754_nan \/ P) -> is_nan x = false -> P.
Proof.
  intros [Hn | HP] Hx; [|exact HP].
  apply IEEE.is_nan_false in Hx. contradiction.
Qed.

Lemma mul_sign (a b : bool) (x y : float) :
  has_sign a x -> has_sign b y -> is_nan (x * y) = false ->
  has_sign (xorb a b) (x * y).
Proof.
  unfold has_sign. intros Hx Hy. apply nan_or.
  rewrite mul_spec. apply SFmul_sign; assumption.
Qed.

Lemma mul_sign_or_zero (a b : bool) (x y : float) :
  has_sign_or_zero a x -> has_sign_or_zero b y -> is_nan (x * y) = false ->
  has_sign_or_zero (xorb a b) (x * y).
Proof.
  unfold has_sign_or_zero. intros Hx Hy. apply nan_or.
  rewrite mul_spec. apply SFmul_sign_or_zero; assumption.
Qed.

Lemma div_sign (a b : bool) (x y : float) :
  has_sign a x -> has_sign b y -> is_nan (x / y) = false ->
  has_sign (xorb a b) (x / y).
Proof.
  unfold has_sign. intros Hx Hy. apply nan_or.
  rewrite div_spec. apply SFdiv_sign; assumption.
Qed.

Lemma div_sign_or_zero (a b : bool) (x y : float) :
  has_sign_or_zero a x -> has_sign b y -> is_nan (x / y) = false ->
  has_sign_or_zero (xorb a b) (x / y).
Proof.
  unfold has_sign, has_sign_or_zero. intros Hx Hy. apply nan_or.
  rewrite div_spec. apply SFdiv_sign_or_zero; assumption.
Qed.

Lemma add_sign (x y : float) :
  has_sign_or_zero false x -> has_sign false y -> is_nan (x + y) = false ->
  has_sign false (x + y).
Proof.
  unfold has_sign, has_sign_or_zero. intros Hx Hy. apply nan_or.
  rewrite add_spec. apply SFadd_sign; assumption.
Qed.

Lemma sqrt_sign (x : float) :
  is_nan (PrimFloat.sqrt x) = false ->
  has_sign_or_zero false x /\ has_sign_or_zero false (PrimFloat.sqrt x).
Proof.
  unfold has_sign_or_zero. apply nan_or.
  rewrite sqrt_spec. apply SFsqrt_sign.
Qed.

Lemma has_sign_or_zero_of_sign (b : bool) (x : float) :
  has_sign b x -> has_sign_or_zero b x.
Proof. apply sign_bit_or_zero. Qed.

Lemma has_sign_exists (x : float) :
  is_nan x = false -> exists b, has_sign b x.
Proof. intros Hx. apply sign_bit_exists, IEEE.is_nan_false, Hx. Qed.

(** A square has sign bit [+]. *)
Lemma square_sign (x : float) :
  is_nan (x * x) = false -> has_sign false (x * x).
Proof.
  intros Hxx. destruct (IEEE.mul_not_nan _ _ Hxx) as [Hx _].
  destruct (has_sign_exists x Hx) as [b Hb].
  rewrite <- (xorb_nilpotent b). apply mul_sign; assumption.
Qed.

Lemma positive_sign (x : float) : (0 <? x) = true -> has_sign false x.
Proof.
  unfold has_sign. rewrite FloatAxioms.ltb_spec.
  change (Prim2SF 0) with (S754_zero false).
  destruct (Prim2SF x) as [s|s| |s m e]; unfold SFltb; simpl;
    try discriminate; destruct s; simpl; congruence.
Qed.

Lemma nonneg_leb (x : float) : has_sign_or_zero false x -> (0 <=? x) = true.
Proof.
  unfold has_sign_or_zero. rewrite FloatAxioms.leb_spec.
  change (Prim2SF 0) with (S754_zero false).
  destruct (Prim2SF x) as [s|s| |s m e]; unfold SFleb; simpl;
    try contradiction; intros; subst; reflexivity.
Qed.

Lemma nonpos_leb (x : float) : has_sign_or_zero true x -> (x <=? 0) = true.
Proof.
  unfold has_sign_or_zero. rewrite FloatAxioms.leb_spec.
  change (Prim2SF 0) with (S754_zero false).
  destruct (Prim2SF x) as [s|s| |s m e]; unfold SFleb; simpl;
    try contradiction; intros; subst; reflexivity.
Qed.

(** ** Differences of a finite number with itself *)

Lemma is_finite_spec (x : float) :
  is_finite x = true -> zero_or_finite (Prim2SF x).
Proof.
  unfold is_finite, is_infinity.
  rewrite negb_true_iff, orb_false_iff. intros [Hn Hi].
  apply IEEE.is_nan_false in Hn. unfold IEEE.is_NaN in Hn.
  rewrite FloatAxioms.eqb_spec, abs_spec in Hi.
  change (Prim2SF infinity) with (S754_infinity false) in Hi.
  destruct (Prim2SF x) as [s|s| |s m e]; simpl; auto.
  discriminate Hi.
Qed.

Lemma sub_self (x : float) : is_finite x = true -> x - x = 0.
Proof.
  intros Hx. apply is_finite_spec in Hx.
  apply Prim2SF_inj. rewrite sub_spec.
  change (Prim2SF 0) with (S754_zero false).
  unfold SF64sub. destruct (Prim2SF x) as [s|s| |s m e]; simpl in *;
    try contradiction.
  - destruct s; reflexivity.
  - rewrite Z.min_id, Z.sub_diag. reflexivity.
Qed.

End IEEEsigns.

(* ================================================================== *)
(** * Further properties of the particle engine                        *)
(* ================================================================== *)

Module EngineFacts.

Import Spatialpy.
Local Open Scope float_scope.
#[local] Set Warnings "-inexact-float".

(** Two particles that differ at most in their neighbour lists. *)
Definition same_body (p q : Particle) : Prop :=
  id p = id q /\ x p = x q /\ v p = v q /\ mass p = mass q
  /\ rho p = rho q /\ nu p = nu q /\ solidTag p = solidTag q.

Lemma same_body_refl (p : Particle) : same_body p p.
Proof. repeat split. Qed.

Lemma same_body_trans (p q r : Particle) :
  same_body p q -> same_body q r -> same_body p r.
Proof.
  unfold same_body. intros (?&?&?&?&?&?&?) (?&?&?&?&?&?&?).
  repeat split; congruence.
Qed.

Lemma same_body_sym (p q : Particle) : same_body p q -> same_body q p.
Proof.
  unfold same_body. intros (?&?&?&?&?&?&?). repeat split; congruence.
Qed.

Lemma add_not_nan (a b : float) :
  is_nan (a + b) = false -> is_nan a = false /\ is_nan b = false.
Proof.
  rewrite !IEEE.is_nan_false. unfold IEEE.is_NaN. rewrite add_spec.
  intros Hab.
  split; intros Hn; apply Hab; rewrite Hn; unfold SF64add; simpl.
  - reflexivity.
  - destruct (Prim2SF a); reflexivity.
Qed.

Section Calls.

Variable ANN_DIST_INF : float.
Variable ANN_NULL_IDX : Z.
Variable debug_flag : Z.
Context {T : Type} `{ANNpointSet T}.

#[local] Abbreviation add_to_neighbor_list :=
  (add_to_neighbor_list ANN_DIST_INF).
#[local] Abbreviation measured_r2 := (measured_r2 ANN_DIST_INF).
#[local] Abbreviation edge_of := (edge_of ANN_DIST_INF).
#[local] Abbreviation find_neighbors_loop :=
  (find_neighbors_loop ANN_DIST_INF ANN_NULL_IDX debug_flag).
#[local] Abbreviation find_neighbors :=
  (find_neighbors ANN_DIST_INF ANN_NULL_IDX debug_flag).
#[local] Abbreviation step := (step ANN_DIST_INF ANN_NULL_IDX debug_flag).
#[local] Abbreviation run := (run ANN_DIST_INF ANN_NULL_IDX debug_flag).

(** ** What a call leaves of the particle *)

(** A call of [add_to_neighbor_list] that returns has printed nothing, and
    has appended the edge of the pair or nothing. *)
Lemma add_to_neighbor_list_returned (me neighbor : Particle)
    (system : ParticleSystem T) (r2 : float)
    (ret : Z) (me' : Particle) (out : stdout) :
  add_to_neighbor_list me neighbor system r2 = Returned (ret, me') out ->
  out = []
  /\ (me' = me
      \/ (me' = push_neighbor me (edge_of me neighbor system r2)
          /\ (h system <? PrimFloat.sqrt (measured_r2 me neighbor r2)) = false
          /\ is_nan (D_i_j (edge_of me neighbor system r2)) = false)).
Proof.
  rewrite PairFacts.add_to_neighbor_list_eq. cbv zeta.
  destruct (h system <? _) eqn:Hlt.
  - intros Heq. injection Heq as _ <- <-. auto.
  - destruct (is_nan _) eqn:Hnan; [discriminate|].
    intros Heq. injection Heq as _ <- <-. auto.
Qed.

Lemma add_to_neighbor_list_defined (me neighbor : Particle)
    (system : ParticleSystem T) (r2 : float) :
  add_to_neighbor_list me neighbor system r2 <> Undefined.
Proof.
  rewrite PairFacts.add_to_neighbor_list_eq. cbv zeta.
  destruct (h system <? _); [discriminate|].
  destruct (is_nan _); discriminate.
Qed.

Lemma particles_at_In (system : ParticleSystem T) (i : Z) (p : Particle) :
  particles_at system i = Some p -> In p (particles system).
Proof.
  unfold particles_at. destruct (i <? 0)%Z; [discriminate|].
  apply nth_error_In.
Qed.

(** The loop of [find_neighbors] keeps the particle and the edges it has,
    and appends at most one edge per array entry, each to a particle of the
    system. *)
Lemma find_neighbors_loop_appends (system : ParticleSystem T)
    (idxs : list Z) (ds : list float) (me me' : Particle) (out : stdout) :
  find_neighbors_loop me system idxs ds = Returned me' out ->
  same_body me me'
  /\ exists added : list NeighborNode,
       neighbors me' = neighbors me ++ added
       /\ (length added <= length idxs)%nat
       /\ Forall (fun e => In (data e) (particles system)) added.
Proof.
  revert ds me out. induction idxs as [|idx idxs IH]; intros ds me out.
  - simpl. intros Heq. injection Heq as <- _.
    split; [apply same_body_refl|]. exists []. rewrite app_nil_r.
    split; [reflexivity|split; [simpl; lia|constructor]].
  - destruct ds as [|d ds]; simpl.
    + intros Heq. injection Heq as <- _.
      split; [apply same_body_refl|]. exists []. rewrite app_nil_r.
      split; [reflexivity|split; [simpl; lia|constructor]].
    + destruct (idx =? ANN_NULL_IDX)%Z.
      * intros Heq. injection Heq as <- _.
        split; [apply same_body_refl|]. exists []. rewrite app_nil_r.
        split; [reflexivity|split; [simpl; lia|constructor]].
      * destruct (particles_at system idx) as [neighbor|] eqn:Hat;
          [|discriminate].
        intros Hb.
        apply SearchFacts.bind_Returned in Hb.
        destruct Hb as ([ret me1] & o & o' & Hadd & Hb & _).
        apply SearchFacts.bind_Returned in Hb.
        destruct Hb as (u & o1 & o2 & _ & Hloop & _).
        cbn [snd] in Hloop.
        destruct (IH _ _ _ Hloop) as (Hbody & added & Hadded & Hlen & Hin).
        apply add_to_neighbor_list_returned in Hadd.
        destruct Hadd as (_ & [-> | (-> & _ & _)]).
        -- split; [exact Hbody|]. exists added.
           split; [exact Hadded|split; [simpl; lia|exact Hin]].
        -- split.
           { apply (same_body_trans me (push_neighbor me
                       (edge_of me neighbor system d)) me');
               [repeat split | exact Hbody]. }
           exists (edge_of me neighbor system d :: added).
           cbn [neighbors push_neighbor] in Hadded.
           rewrite Hadded, <- app_assoc.
           split; [reflexivity|split; [simpl; lia|]].
           constructor; [|exact Hin].
           apply (particles_at_In _ _ _ Hat).
Qed.

(** X1: a call of [find_neighbors] that returns leaves the particle's
    id, position, velocity, mass, density, viscosity and tag as they were,
    keeps every edge the particle had, in place, and appends behind them at
    most [k] edges ([k] the count of the search in exact mode, the number
    of indexed points in approximate mode), each of them to a particle of
    [system.particles]. *)
Theorem find_neighbors_appends (me me' : Particle)
    (system : ParticleSystem T) (use_exact_k : bool) (out : stdout) :
  find_neighbors me system use_exact_k = Returned me' out ->
  same_body me me'
  /\ exists (queryPt : list float) (added : list NeighborNode),
       query_point me system = Some queryPt
       /\ neighbors me' = neighbors me ++ added
       /\ (length added
           <= Z.to_nat (if use_exact_k
                        then get_k__exact queryPt (h system * h system) system
                        else get_k__approx system))%nat
       /\ Forall (fun e => In (data e) (particles system)) added.
Proof.
  unfold Spatialpy.find_neighbors.
  destruct (query_point me system) as [queryPt|]; [|discriminate].
  intros Hloop. apply find_neighbors_loop_appends in Hloop.
  destruct Hloop as (Hbody & added & Hadded & Hlen & Hin).
  split; [exact Hbody|]. exists queryPt, added.
  split; [reflexivity|split; [exact Hadded|split; [|exact Hin]]].
  rewrite length_firstn in Hlen. lia.
Qed.

(** ** Calling [find_neighbors] again *)

(** How two calls on particles of the same body end. *)
Definition alike {A : Type} (R : A -> A -> Prop) (m m' : outcome A) : Prop :=
  match m, m' with
  | Returned a o, Returned a' o' => o = o' /\ R a a'
  | Exited s o, Exited s' o' => s = s' /\ o = o'
  | Undefined, Undefined => True
  | _, _ => False
  end.

(** The same edges appended to [p] and to [q]. *)
Definition appended_alike (p q p' q' : Particle) : Prop :=
  same_body p' q'
  /\ exists added, neighbors p' = neighbors p ++ added
                   /\ neighbors q' = neighbors q ++ added.

Lemma add_to_neighbor_list_alike (me me' neighbor : Particle)
    (system : ParticleSystem T) (r2 : float) :
  same_body me me' ->
  alike (fun a a' => fst a = fst a' /\ appended_alike me me' (snd a) (snd a'))
        (add_to_neighbor_list me neighbor system r2)
        (add_to_neighbor_list me' neighbor system r2).
Proof.
  destruct me as [i px pv m d n st l], me' as [i' px' pv' m' d' n' st' l'].
  unfold same_body. cbn [id x v mass rho nu solidTag].
  intros (<- & <- & <- & <- & <- & <- & <-).
  rewrite !PairFacts.add_to_neighbor_list_eq. cbv zeta.
  unfold Spatialpy.edge_of, Spatialpy.measured_r2, particle_dist_sqrd,
         nan_diagnostics.
  cbn [id x v mass rho nu solidTag neighbors D_i_j].
  destruct (h system <? _).
  - simpl. repeat split. exists []. rewrite !app_nil_r. split; reflexivity.
  - destruct (is_nan _); simpl.
    + split; reflexivity.
    + repeat split. eexists. split; reflexivity.
Qed.

Lemma find_neighbors_loop_alike (system : ParticleSystem T)
    (idxs : list Z) (ds : list float) (me me' : Particle) :
  same_body me me' ->
  alike (appended_alike me me')
        (find_neighbors_loop me system idxs ds)
        (find_neighbors_loop me' system idxs ds).
Proof.
  revert ds me me'. induction idxs as [|idx idxs IH]; intros ds me me' Hbody.
  - simpl. repeat split; try apply Hbody.
    exists []. rewrite !app_nil_r. split; reflexivity.
  - destruct ds as [|d ds]; simpl.
    + repeat split; try apply Hbody.
      exists []. rewrite !app_nil_r. split; reflexivity.
    + destruct (idx =? ANN_NULL_IDX)%Z.
      * simpl. repeat split; try apply Hbody.
        exists []. rewrite !app_nil_r. split; reflexivity.
      * destruct (particles_at system idx) as [neighbor|]; [|exact I].
        pose proof (add_to_neighbor_list_alike me me' neighbor system d Hbody)
          as Hadd.
        destruct (Spatialpy.add_to_neighbor_list ANN_DIST_INF me neighbor
                    system d) as [[ret m1] o|s o|];
          destruct (Spatialpy.add_to_neighbor_list ANN_DIST_INF me' neighbor
                      system d) as [[ret' m1'] o'|s' o'|];
          simpl in Hadd; try contradiction; simpl.
        -- destruct Hadd as (<- & _ & Hbody1 & added1 & Hm1 & Hm1').
           assert (Hprint : id m1 = id m1' /\ x m1 = x m1').
           { destruct Hbody1 as (? & ? & _). auto. }
           destruct Hprint as [Hid Hx]. rewrite Hid, Hx.
           specialize (IH ds m1 m1' Hbody1).
           destruct (2 <? debug_flag)%Z; simpl;
             destruct (Spatialpy.find_neighbors_loop ANN_DIST_INF ANN_NULL_IDX
                         debug_flag m1 system idxs ds) as [m2 o2|s2 o2|];
             destruct (Spatialpy.find_neighbors_loop ANN_DIST_INF ANN_NULL_IDX
                         debug_flag m1' system idxs ds) as [m2' o2'|s2' o2'|];
             simpl in IH |- *; try contradiction; try exact I.
           all: try (destruct IH as (<- & <-); split; reflexivity).
           all: destruct IH as (<- & Hbody2 & added2 & Hm2 & Hm2');
             split; [reflexivity|]; split; [exact Hbody2|];
             exists (added1 ++ added2);
             rewrite Hm2, Hm2', Hm1, Hm1', <- !app_assoc; split; reflexivity.
        -- destruct Hadd as (<- & <-). split; reflexivity.
        -- exact I.
Qed.

(** X2: [find_neighbors] does not clear the neighbour list.  When a call on
    a particle returns, a second call with the same system and mode returns
    too, prints the same, and appends the same edges once more: the list
    then holds the old edges followed by the new edges twice. *)
Theorem find_neighbors_again (me me1 : Particle)
    (system : ParticleSystem T) (use_exact_k : bool) (out : stdout) :
  find_neighbors me system use_exact_k = Returned me1 out ->
  exists (added : list NeighborNode) (me2 : Particle),
    neighbors me1 = neighbors me ++ added
    /\ find_neighbors me1 system use_exact_k = Returned me2 out
    /\ neighbors me2 = neighbors me ++ added ++ added
    /\ same_body me me2.
Proof.
  intros Hfirst.
  assert (Hbody : same_body me me1).
  { revert Hfirst. unfold Spatialpy.find_neighbors.
    destruct (query_point me system); [|discriminate].
    intros Hloop. apply (find_neighbors_loop_appends _ _ _ _ _ _ Hloop). }
  revert Hfirst. unfold Spatialpy.find_neighbors, query_point.
  destruct Hbody as (Hid & Hx & Hrest). rewrite <- Hx.
  destruct (3 <? dimension system)%Z; [discriminate|].
  cbv zeta.
  match goal with
  | |- Spatialpy.find_neighbors_loop _ _ _ _ _ ?idxs ?ds = _ -> _ =>
      intros Hfirst;
      pose proof (find_neighbors_loop_alike system idxs ds me me1
                    (conj Hid (conj Hx Hrest))) as Hal;
      rewrite Hfirst in Hal;
      destruct (Spatialpy.find_neighbors_loop ANN_DIST_INF ANN_NULL_IDX
                  debug_flag me1 system idxs ds) as [me2 o2|s2 o2|]
  end;
    simpl in Hal; try contradiction.
  destruct Hal as (<- & Hbody2 & added & Hm1 & Hm2).
  exists added, me2. split; [exact Hm1|]. split; [reflexivity|].
  split.
  - rewrite Hm2, Hm1, <- app_assoc. reflexivity.
  - apply (same_body_trans me me1 me2); [|exact Hbody2].
    exact (conj Hid (conj Hx Hrest)).
Qed.

(** ** Properties of every stored edge *)

(** A property [P] of the edge of every pair that is let through, for
    particles of the kind [Q] and a support radius of the kind [S], holds of
    every edge in the system after any sequence of calls. *)
Section EdgeProperty.

Variable Q : Particle -> Prop.
Variable S : float -> Prop.
Variable P : NeighborNode -> Prop.

Hypothesis Q_body : forall p q, same_body p q -> Q p -> Q q.

Hypothesis P_edge :
  forall (me neighbor : Particle) (system : ParticleSystem T) (r2 : float),
    Q me -> Q neighbor -> S (h system) ->
    (h system <? PrimFloat.sqrt (measured_r2 me neighbor r2)) = false ->
    is_nan (D_i_j (edge_of me neighbor system r2)) = false ->
    P (edge_of me neighbor system r2).

Definition particle_ok (p : Particle) : Prop := Q p /\ Forall P (neighbors p).

Definition system_ok (system : ParticleSystem T) : Prop :=
  S (h system) /\ Forall particle_ok (particles system).

Definition call_ok (c : call) : Prop :=
  match c with
  | call_add_to_neighbor_list _ neighbor _ => Q neighbor
  | call_find_neighbors _ _ => True
  end.

Lemma add_to_neighbor_list_ok (me neighbor : Particle)
    (system : ParticleSystem T) (r2 : float)
    (ret : Z) (me' : Particle) (out : stdout) :
  S (h system) -> Q neighbor -> particle_ok me ->
  add_to_neighbor_list me neighbor system r2 = Returned (ret, me') out ->
  particle_ok me'.
Proof.
  intros HS Hn [HQ HP] Hadd.
  apply add_to_neighbor_list_returned in Hadd.
  destruct Hadd as (_ & [-> | (-> & Hlt & Hnan)]); [split; assumption|].
  split.
  - apply (Q_body me); [repeat split | exact HQ].
  - cbn [neighbors push_neighbor]. apply Forall_app. split; [exact HP|].
    constructor; [|constructor]. apply P_edge; assumption.
Qed.

Lemma find_neighbors_loop_ok (system : ParticleSystem T)
    (idxs : list Z) (ds : list float) (me me' : Particle) (out : stdout) :
  system_ok system -> particle_ok me ->
  find_neighbors_loop me system idxs ds = Returned me' out ->
  particle_ok me'.
Proof.
  intros [HS Hsys]. revert ds me out.
  induction idxs as [|idx idxs IH]; intros ds me out Hme.
  - simpl. intros Heq. injection Heq as <- _. exact Hme.
  - destruct ds as [|d ds]; simpl.
    + intros Heq. injection Heq as <- _. exact Hme.
    + destruct (idx =? ANN_NULL_IDX)%Z.
      * intros Heq. injection Heq as <- _. exact Hme.
      * destruct (particles_at system idx) as [neighbor|] eqn:Hat;
          [|discriminate].
        intros Hb.
        apply SearchFacts.bind_Returned in Hb.
        destruct Hb as ([ret me1] & o & o' & Hadd & Hb & _).
        apply SearchFacts.bind_Returned in Hb.
        destruct Hb as (u & o1 & o2 & _ & Hloop & _).
        apply (IH _ _ _ (add_to_neighbor_list_ok _ _ _ _ _ _ _ HS
                 (proj1 (proj1 (Forall_forall _ _) Hsys _
                                (particles_at_In _ _ _ Hat)))
                 Hme Hadd) Hloop).
Qed.

Lemma step_ok (system system' : ParticleSystem T) (c : call) (out : stdout) :
  system_ok system -> call_ok c ->
  step system c = Returned system' out -> system_ok system'.
Proof.
  intros Hsys Hc. pose proof Hsys as [HS Hall].
  destruct c as [i neighbor r2|i use_exact_k]; simpl in *;
    destruct (nth_error (particles system) i) as [me|] eqn:Hme;
    try discriminate; intros Hb;
    apply SearchFacts.bind_Returned in Hb;
    destruct Hb as (a & o & o' & Hcall & Hret & _);
    injection Hret as <- _; split; cbn [h particles set_particle];
    try exact HS;
    apply SearchFacts.Forall_replace_nth; try exact Hall;
    apply nth_error_In in Hme;
    pose proof (proj1 (Forall_forall _ _) Hall _ Hme) as Hin.
  - destruct a as [ret me'].
    apply (add_to_neighbor_list_ok _ _ _ _ _ _ _ HS Hc Hin Hcall).
  - revert Hcall. unfold Spatialpy.find_neighbors.
    destruct (query_point me system); [|discriminate].
    apply find_neighbors_loop_ok; assumption.
Qed.

Lemma run_ok (system system' : ParticleSystem T) (calls : list call)
    (out : stdout) :
  system_ok system -> Forall call_ok calls ->
  run system calls = Returned system' out -> system_ok system'.
Proof.
  revert system out. induction calls as [|c calls IH];
    intros system out Hsys Hcalls.
  - simpl. intros Heq. injection Heq as <- _. exact Hsys.
  - inversion Hcalls as [|? ? Hc Hcalls']; subst.
    simpl. intros Hb. apply SearchFacts.bind_Returned in Hb.
    destruct Hb as (system1 & o & o' & Hstep & Hrun & _).
    apply (IH _ _ (step_ok _ _ _ _ Hsys Hc Hstep) Hcalls' Hrun).
Qed.

End EdgeProperty.

(** *** Stored values are numbers, distances are not negative *)

Definition edge_numbers (e : NeighborNode) : Prop :=
  is_nan (D_i_j e) = false /\ is_nan (dist e) = false
  /\ (0 <=? dist e) = true.

Lemma edge_of_numbers (me neighbor : Particle) (system : ParticleSystem T)
    (r2 : float) :
  is_nan (D_i_j (edge_of me neighbor system r2)) = false ->
  edge_numbers (edge_of me neighbor system r2).
Proof.
  intros Hnan. split; [exact Hnan|].
  unfold Spatialpy.edge_of in *. cbn [D_i_j dist] in *.
  apply SearchFacts.D_i_j_closed_form_numbers in Hnan.
  destruct Hnan as [_ Hr]. split; [exact Hr|].
  apply IEEEsigns.nonneg_leb, IEEEsigns.sqrt_sign, Hr.
Qed.

(** The calls keep the coefficients and the distances numbers: when every
    edge of every particle of the system has a coefficient [D_i_j] and a
    distance [r] that are numbers, with [0 <= r], this is still so after
    any sequence of [add_to_neighbor_list] and [find_neighbors] calls on
    particles of the system. *)
Lemma run_keeps_edge_numbers (system system' : ParticleSystem T)
    (calls : list call) (out : stdout) :
  Forall (fun p => Forall edge_numbers (neighbors p)) (particles system) ->
  run system calls = Returned system' out ->
  Forall (fun p => Forall edge_numbers (neighbors p)) (particles system').
Proof.
  intros Hall Hrun.
  assert (Hok : system_ok (fun _ => True) (fun _ => True) edge_numbers system).
  { split; [exact I|].
    apply Forall_forall. intros p Hp. split; [exact I|].
    exact (proj1 (Forall_forall _ _) Hall p Hp). }
  assert (Hcalls : Forall (call_ok (fun _ => True)) calls).
  { apply Forall_forall. intros [i n r2|i b] _; exact I. }
  pose proof (run_ok (fun _ => True) (fun _ => True) edge_numbers
                (fun _ _ _ _ => I)
                (fun me nb sys r2 _ _ _ _ Hnan =>
                   edge_of_numbers me nb sys r2 Hnan)
                system system' calls out Hok Hcalls Hrun) as [_ Hok'].
  apply Forall_forall. intros p Hp.
  exact (proj2 (proj1 (Forall_forall _ _) Hok' p Hp)).
Qed.

(** *** Signs of the stored values *)

Ltac nan_parts :=
  repeat match goal with
  | Hn : is_nan (?a * ?b) = false |- _ =>
      lazymatch goal with
      | _ : is_nan a = false, _ : is_nan b = false |- _ => fail
      | _ => destruct (IEEE.mul_not_nan a b Hn)
      end
  | Hn : is_nan (?a / ?b) = false |- _ =>
      lazymatch goal with
      | _ : is_nan a = false, _ : is_nan b = false |- _ => fail
      | _ => destruct (IEEE.div_not_nan a b Hn)
      end
  | Hn : is_nan (?a + ?b) = false |- _ =>
      lazymatch goal with
      | _ : is_nan a = false, _ : is_nan b = false |- _ => fail
      | _ => destruct (add_not_nan a b Hn)
      end
  | Hn : is_nan (?a - ?b) = false |- _ =>
      lazymatch goal with
      | _ : is_nan a = false, _ : is_nan b = false |- _ => fail
      | _ => destruct (IEEE.sub_not_nan a b Hn)
      end
  end.

Lemma has_sign_literal (b : bool) (c : float) :
  IEEEsigns.sign_bit b (Prim2SF c) -> IEEEsigns.has_sign b c.
Proof. trivial. Qed.

Lemma wfd_closed_form_sign (hh r : float) :
  IEEEsigns.has_sign false hh ->
  is_nan (wfd_closed_form hh r) = false ->
  IEEEsigns.has_sign true (wfd_closed_form hh r).
Proof.
  unfold wfd_closed_form. intros Hh Hnan. nan_parts.
  assert (Lone : IEEEsigns.has_sign false 1.0) by reflexivity.
  assert (Hc : IEEEsigns.has_sign true (-25.066903536973515383e0))
    by reflexivity.
  assert (Hih : IEEEsigns.has_sign false (1.0 / hh))
    by (apply (IEEEsigns.div_sign false false); assumption).
  assert (Hihsq : IEEEsigns.has_sign false (1.0 / hh * (1.0 / hh)))
    by (apply IEEEsigns.square_sign; assumption).
  destruct (IEEEsigns.has_sign_exists (hh - r)) as [s Hs]; [assumption|].
  assert (Hd1 : IEEEsigns.has_sign (xorb true s)
                  (-25.066903536973515383e0 * (hh - r)))
    by (apply IEEEsigns.mul_sign; assumption).
  assert (Hd2 : IEEEsigns.has_sign true
                  (-25.066903536973515383e0 * (hh - r) * (hh - r))).
  { replace true with (xorb (xorb true s) s) by (destruct s; reflexivity).
    apply IEEEsigns.mul_sign; assumption. }
  repeat (apply (IEEEsigns.mul_sign true false); try assumption).
Qed.

Lemma D_i_j_closed_form_nonneg (mi mj rhoi rhoj hh r2 : float) :
  (0 <? mi) = true -> (0 <? mj) = true ->
  (0 <? rhoi) = true -> (0 <? rhoj) = true -> (0 <? hh) = true ->
  is_nan (D_i_j_closed_form mi mj rhoi rhoj hh r2) = false ->
  (0 <=? D_i_j_closed_form mi mj rhoi rhoj hh r2) = true.
Proof.
  intros Hmi Hmj Hri Hrj Hh Hnan.
  apply IEEEsigns.positive_sign in Hmi, Hmj, Hri, Hrj, Hh.
  pose proof (SearchFacts.D_i_j_closed_form_numbers _ _ _ _ _ _ Hnan)
    as [_ Hr].
  apply IEEEsigns.sqrt_sign in Hr. destruct Hr as [Hr2 _].
  unfold D_i_j_closed_form in *. nan_parts.
  assert (Ltwo : IEEEsigns.has_sign true (-2.0)) by reflexivity.
  assert (Hc : IEEEsigns.has_sign false 0.01) by reflexivity.
  assert (Hwfd : IEEEsigns.has_sign true
                   (wfd_closed_form hh (PrimFloat.sqrt r2)))
    by (apply wfd_closed_form_sign; assumption).
  assert (Hmm : IEEEsigns.has_sign false (mi * mj))
    by (apply (IEEEsigns.mul_sign false false); assumption).
  assert (Hms : IEEEsigns.has_sign false (mi + mj))
    by (apply IEEEsigns.add_sign;
        [apply IEEEsigns.has_sign_or_zero_of_sign| |]; assumption).
  assert (Hrs : IEEEsigns.has_sign false (rhoi + rhoj))
    by (apply IEEEsigns.add_sign;
        [apply IEEEsigns.has_sign_or_zero_of_sign| |]; assumption).
  assert (Hrr : IEEEsigns.has_sign false (rhoi * rhoj))
    by (apply (IEEEsigns.mul_sign false false); assumption).
  assert (HA1 : IEEEsigns.has_sign true (-2.0 * (mi * mj)))
    by (apply (IEEEsigns.mul_sign true false); assumption).
  assert (HA2 : IEEEsigns.has_sign true (-2.0 * (mi * mj) / (mi + mj)))
    by (apply (IEEEsigns.div_sign true false); assumption).
  assert (HA3 : IEEEsigns.has_sign true
                  (-2.0 * (mi * mj) / (mi + mj) * (rhoi + rhoj)))
    by (apply (IEEEsigns.mul_sign true false); assumption).
  assert (HA4 : IEEEsigns.has_sign true
                  (-2.0 * (mi * mj) / (mi + mj) * (rhoi + rhoj)
                   / (rhoi * rhoj)))
    by (apply (IEEEsigns.div_sign true false); assumption).
  assert (HA5 : IEEEsigns.has_sign_or_zero true
                  (-2.0 * (mi * mj) / (mi + mj) * (rhoi + rhoj)
                   / (rhoi * rhoj) * r2)).
  { apply (IEEEsigns.mul_sign_or_zero true false); try assumption.
    apply IEEEsigns.has_sign_or_zero_of_sign. exact HA4. }
  assert (HN : IEEEsigns.has_sign_or_zero false
                 (-2.0 * (mi * mj) / (mi + mj) * (rhoi + rhoj)
                  / (rhoi * rhoj) * r2
                  * wfd_closed_form hh (PrimFloat.sqrt r2))).
  { apply (IEEEsigns.mul_sign_or_zero true true); try assumption.
    apply IEEEsigns.has_sign_or_zero_of_sign. exact Hwfd. }
  assert (Hreg : IEEEsigns.has_sign false (0.01 * hh * hh)).
  { apply (IEEEsigns.mul_sign false false); try assumption.
    apply (IEEEsigns.mul_sign false false); assumption. }
  assert (Hden : IEEEsigns.has_sign false (r2 + 0.01 * hh * hh))
    by (apply IEEEsigns.add_sign; assumption).
  apply IEEEsigns.nonneg_leb.
  apply (IEEEsigns.div_sign_or_zero false false); assumption.
Qed.

Lemma dWdr_closed_form_nonpos (hh r : float) :
  (0 <? hh) = true -> IEEEsigns.has_sign_or_zero false r ->
  is_nan (dWdr_closed_form hh r) = false ->
  (dWdr_closed_form hh r <=? 0) = true.
Proof.
  intros Hh Hr Hnan. apply IEEEsigns.positive_sign in Hh.
  unfold dWdr_closed_form in *. cbv zeta in *. nan_parts.
  assert (Lnum : IEEEsigns.has_sign false 105) by reflexivity.
  assert (Lsixteen : IEEEsigns.has_sign false 16) by reflexivity.
  assert (Hpi : IEEEsigns.has_sign false M_PI) by reflexivity.
  assert (Ltwelve : IEEEsigns.has_sign_or_zero true (-12)) by reflexivity.
  assert (Hhh : IEEEsigns.has_sign false (hh * hh))
    by (apply (IEEEsigns.mul_sign false false); assumption).
  assert (Hden : IEEEsigns.has_sign false (16 * M_PI * hh * hh * hh)).
  { repeat (apply (IEEEsigns.mul_sign false false); try assumption). }
  assert (Halpha : IEEEsigns.has_sign_or_zero false
                     (105 / (16 * M_PI * hh * hh * hh))).
  { apply IEEEsigns.has_sign_or_zero_of_sign.
    apply (IEEEsigns.div_sign false false); assumption. }
  assert (Hr12 : IEEEsigns.has_sign_or_zero true (-12 * r))
    by (apply (IEEEsigns.mul_sign_or_zero true false); assumption).
  assert (Hq : IEEEsigns.has_sign_or_zero true (-12 * r / (hh * hh)))
    by (apply (IEEEsigns.div_sign_or_zero true false); assumption).
  assert (Hsq : IEEEsigns.has_sign_or_zero false
                  ((1 - r / hh) * (1 - r / hh))).
  { apply IEEEsigns.has_sign_or_zero_of_sign, IEEEsigns.square_sign.
    assumption. }
  apply IEEEsigns.nonpos_leb.
  apply (IEEEsigns.mul_sign_or_zero true false); try assumption.
  apply (IEEEsigns.mul_sign_or_zero false true); assumption.
Qed.

Definition positive_body (p : Particle) : Prop :=
  (0 <? mass p) = true /\ (0 <? rho p) = true.

Definition edge_signs (e : NeighborNode) : Prop :=
  (0 <=? D_i_j e) = true
  /\ (is_nan (dWdr e) = false -> (dWdr e <=? 0) = true).

Lemma edge_of_signs (me neighbor : Particle) (system : ParticleSystem T)
    (r2 : float) :
  positive_body me -> positive_body neighbor -> (0 <? h system) = true ->
  is_nan (D_i_j (edge_of me neighbor system r2)) = false ->
  edge_signs (edge_of me neighbor system r2).
Proof.
  intros [Hm Hr] [Hm' Hr'] Hh Hnan. split.
  - unfold Spatialpy.edge_of in *. cbn [D_i_j] in *.
    apply D_i_j_closed_form_nonneg; assumption.
  - unfold Spatialpy.edge_of in *. cbn [D_i_j dWdr] in *.
    apply dWdr_closed_form_nonpos; [exact Hh|].
    apply SearchFacts.D_i_j_closed_form_numbers in Hnan.
    apply IEEEsigns.sqrt_sign, Hnan.
Qed.

(** X4: in a system with support radius [h > 0] whose particles all have
    mass [> 0] and density [> 0], no stored coefficient is negative and no
    stored kernel derivative is positive: when every edge has [0 <= D_i_j]
    and a [dWdr] that is NaN or [<= 0], this is still so after any sequence
    of [find_neighbors] calls and of [add_to_neighbor_list] calls whose
    neighbour has mass and density [> 0]. *)
Theorem stored_edges_signs (system system' : ParticleSystem T)
    (calls : list call) (out : stdout) :
  (0 <? h system) = true ->
  Forall (fun p => positive_body p /\ Forall edge_signs (neighbors p))
         (particles system) ->
  Forall (call_ok positive_body) calls ->
  run system calls = Returned system' out ->
  Forall (fun p => positive_body p /\ Forall edge_signs (neighbors p))
         (particles system').
Proof.
  intros Hh Hall Hcalls Hrun.
  assert (Hbody : forall p q, same_body p q -> positive_body p ->
                              positive_body q).
  { intros p q (_ & _ & _ & Hm & Hr & _) [Hpm Hpr].
    unfold positive_body. rewrite <- Hm, <- Hr. split; assumption. }
  exact (proj2 (run_ok positive_body (fun hh => (0 <? hh) = true) edge_signs
                  Hbody
                  (fun me nb sys r2 Hme Hnb Hs _ Hnan =>
                     edge_of_signs me nb sys r2 Hme Hnb Hs Hnan)
                  system system' calls out (conj Hh Hall) Hcalls Hrun)).
Qed.

(** ** Input that is not a distance *)

Lemma sqrt_negative (a : float) :
  (a <? 0) = true -> is_nan (PrimFloat.sqrt a) = true.
Proof.
  intros Hneg. destruct (is_nan (PrimFloat.sqrt a)) eqn:Hs; [reflexivity|].
  apply IEEEsigns.sqrt_sign in Hs. destruct Hs as [Ha _].
  apply IEEEsigns.nonneg_leb in Ha.
  rewrite (IEEE.gt_not_le _ _ Hneg) in Ha. discriminate Ha.
Qed.

(** X5: a support radius that is NaN, or a squared distance (given, or
    measured at the marker) that is NaN or negative, never yields an edge
    and is never passed over in silence: [add_to_neighbor_list] prints the
    diagnostics and stops the run with [exit(1)]. *)
Theorem add_to_neighbor_list_not_a_distance (me neighbor : Particle)
    (system : ParticleSystem T) (r2 : float) :
  is_nan (h system) = true
  \/ is_nan (measured_r2 me neighbor r2) = true
  \/ (measured_r2 me neighbor r2 <? 0) = true ->
  add_to_neighbor_list me neighbor system r2
  = Exited 1
      (nan_diagnostics me neighbor
         (PrimFloat.sqrt (measured_r2 me neighbor r2)) (h system)
         (105 / (16 * M_PI * h system * h system * h system))
         (dWdr_closed_form (h system)
            (PrimFloat.sqrt (measured_r2 me neighbor r2)))).
Proof.
  intros Hbad.
  assert (Hnan : is_nan (h system) = true
                 \/ is_nan (PrimFloat.sqrt (measured_r2 me neighbor r2)) = true).
  { destruct Hbad as [Hh | [Hr | Hr]]; [left; exact Hh | right | right].
    - destruct (is_nan (PrimFloat.sqrt _)) eqn:Hs; [reflexivity|].
      apply IEEE.sqrt_not_nan in Hs. congruence.
    - apply sqrt_negative, Hr. }
  rewrite PairFacts.add_to_neighbor_list_eq. cbv zeta.
  destruct (h system <? _) eqn:Hlt.
  - apply IEEE.ltb_true_not_nan in Hlt. destruct Hlt, Hnan; congruence.
  - destruct (is_nan (D_i_j _)) eqn:HD; [reflexivity|].
    unfold Spatialpy.edge_of in HD. cbn [D_i_j] in HD.
    apply SearchFacts.D_i_j_closed_form_numbers in HD.
    destruct HD, Hnan; congruence.
Qed.

(** ** Reading [system.particles] *)

Definition in_bounds (system : ParticleSystem T) (i : Z) : Prop :=
  i = ANN_NULL_IDX \/ (0 <= i < Z.of_nat (length (particles system)))%Z.

Lemma particles_at_in_bounds (system : ParticleSystem T) (i : Z) :
  (0 <= i < Z.of_nat (length (particles system)))%Z ->
  exists p, particles_at system i = Some p.
Proof.
  intros Hi. unfold particles_at.
  destruct (i <? 0)%Z eqn:Hneg; [lia|].
  destruct (nth_error (particles system) (Z.to_nat i)) as [p|] eqn:Hnth;
    [exists p; reflexivity|].
  apply nth_error_None in Hnth. lia.
Qed.

Lemma find_neighbors_loop_in_bounds (system : ParticleSystem T)
    (idxs : list Z) (ds : list float) (me : Particle) :
  Forall (in_bounds system) idxs ->
  find_neighbors_loop me system idxs ds <> Undefined.
Proof.
  intros Hidxs. revert ds me.
  induction Hidxs as [|idx idxs Hidx Hidxs IH]; intros ds me.
  - discriminate.
  - destruct ds as [|d ds]; simpl; [discriminate|].
    destruct (idx =? ANN_NULL_IDX)%Z eqn:Hnull; [discriminate|].
    destruct Hidx as [-> | Hidx]; [rewrite Z.eqb_refl in Hnull; discriminate|].
    destruct (particles_at_in_bounds system idx Hidx) as [neighbor ->].
    pose proof (add_to_neighbor_list_defined me neighbor system d) as Hadd.
    destruct (Spatialpy.add_to_neighbor_list ANN_DIST_INF me neighbor system d)
      as [[ret me1] o|s o|]; simpl; try discriminate; try congruence.
    specialize (IH ds me1).
    destruct (2 <? debug_flag)%Z; simpl;
      destruct (Spatialpy.find_neighbors_loop ANN_DIST_INF ANN_NULL_IDX
                  debug_flag me1 system idxs ds);
      try discriminate; congruence.
Qed.

(** X6: [find_neighbors] reads neither [x] nor [system.particles] out of
    range when [dimension <= 3] and every index the search puts into
    [nn_idx] is [ANN_NULL_IDX] or the index of a particle of the system. *)
Theorem find_neighbors_in_bounds (me : Particle)
    (system : ParticleSystem T) (use_exact_k : bool) :
  (dimension system <= 3)%Z ->
  (forall queryPt : list float,
     query_point me system = Some queryPt ->
     Forall (in_bounds system)
       (nn_idx
          (annkFRSearch (kdTree system) queryPt (h system * h system)
             (if use_exact_k
              then get_k__exact queryPt (h system * h system) system
              else get_k__approx system)))) ->
  find_neighbors me system use_exact_k <> Undefined.
Proof.
  intros Hdim Hidx. unfold Spatialpy.find_neighbors.
  destruct (query_point me system) as [queryPt|] eqn:Hq.
  - apply find_neighbors_loop_in_bounds.
    specialize (Hidx queryPt eq_refl).
    apply Forall_forall. intros i Hi.
    apply (proj1 (Forall_forall _ _) Hidx).
    rewrite <- (firstn_skipn (Z.to_nat (if use_exact_k
                  then get_k__exact queryPt (h system * h system) system
                  else get_k__approx system))).
    apply in_or_app. left. exact Hi.
  - unfold query_point in Hq.
    destruct (3 <? dimension system)%Z eqn:Hd; [lia|discriminate].
Qed.

(** ** What [find_neighbors] prints *)

Lemma nan_diagnostics_body (p q neighbor : Particle)
    (r hh alpha dW : float) :
  same_body p q ->
  nan_diagnostics q neighbor r hh alpha dW
  = nan_diagnostics p neighbor r hh alpha dW.
Proof.
  intros (Hid & _ & _ & Hm & Hr & _). unfold nan_diagnostics.
  rewrite Hid, Hm, Hr. reflexivity.
Qed.

(** The output of a call at a debug level of at most 2. *)
Definition quiet (me : Particle) (system : ParticleSystem T)
    (m : outcome Particle) : Prop :=
  match m with
  | Returned _ out => out = []
  | Exited status out =>
      status = 1%Z
      /\ exists (neighbor : Particle) (r alpha dW : float),
           In neighbor (particles system)
           /\ out = nan_diagnostics me neighbor r (h system) alpha dW
  | Undefined => True
  end.

Lemma find_neighbors_loop_quiet (system : ParticleSystem T)
    (idxs : list Z) (ds : list float) (me : Particle) :
  (debug_flag <= 2)%Z ->
  quiet me system (find_neighbors_loop me system idxs ds).
Proof.
  intros Hdebug.
  assert (Hflag : (2 <? debug_flag)%Z = false) by lia.
  revert ds me. induction idxs as [|idx idxs IH]; intros ds me.
  - reflexivity.
  - destruct ds as [|d ds]; simpl; [reflexivity|].
    destruct (idx =? ANN_NULL_IDX)%Z; [reflexivity|].
    destruct (particles_at system idx) as [neighbor|] eqn:Hat; [|exact I].
    rewrite Hflag.
    pose proof (add_to_neighbor_list_returned me neighbor system d) as Hret.
    pose proof (PairFacts.add_to_neighbor_list_eq ANN_DIST_INF me neighbor
                  system d) as Heq.
    destruct (Spatialpy.add_to_neighbor_list ANN_DIST_INF me neighbor system d)
      as [[ret me1] o|s o|]; simpl.
    + destruct (Hret ret me1 o eq_refl) as [-> Hme1].
      assert (Hbody : same_body me me1)
        by (destruct Hme1 as [-> | [-> _]]; repeat split).
      specialize (IH ds me1).
      destruct (Spatialpy.find_neighbors_loop ANN_DIST_INF ANN_NULL_IDX
                  debug_flag me1 system idxs ds) as [m o2|s2 o2|];
        simpl in IH |- *; auto.
      destruct IH as (-> & nb & r & alpha & dW & Hin & ->).
      split; [reflexivity|]. exists nb, r, alpha, dW.
      split; [exact Hin|]. apply nan_diagnostics_body. exact Hbody.
    + cbv zeta in Heq.
      destruct (h system <? _); [discriminate|].
      destruct (is_nan _); [|discriminate].
      injection Heq as -> ->. split; [reflexivity|].
      do 4 eexists. split; [exact (particles_at_In _ _ _ Hat)|reflexivity].
    + exact I.
Qed.

(** X7: at a debug level of at most 2, [find_neighbors] prints nothing when
    it returns; when it stops the run, the status is 1 and the output is
    the diagnostics of one pair: the particle itself, a particle of
    [system.particles], and [system.h]. *)
Theorem find_neighbors_quiet (me : Particle) (system : ParticleSystem T)
    (use_exact_k : bool) :
  (debug_flag <= 2)%Z ->
  quiet me system (find_neighbors me system use_exact_k).
Proof.
  intros Hdebug. unfold Spatialpy.find_neighbors.
  destruct (query_point me system); [|exact I].
  apply find_neighbors_loop_quiet. exact Hdebug.
Qed.

End Calls.

(** ** What the NaN guard covers *)

(** Two particles of mass 1 and density 1 at distance [r = h = 2^-366]:
    [16 * M_PI * h * h * h] underflows to 0, [alpha] is infinite and
    [(1 - R) * (1 - R)] is 0, so [dWdr] is NaN, while [wfd] and [D_i_j]
    are 0. *)
Definition tiny_owner : Particle := particle_at 0 0 1 1.
Definition tiny_neighbor : Particle := particle_at 1 0x1p-366 1 1.
Definition tiny_system : ParticleSystem (list (list float)) :=
  system_of 0x1p-366 [tiny_owner; tiny_neighbor].

(** X3: the NaN guard tests [D_i_j] and nothing else.  It keeps the
    coefficients and the distances numbers: when every edge of every
    particle of the system has a coefficient [D_i_j] and a distance [r] that
    are numbers, with [0 <= r], this is still so after any sequence of
    [add_to_neighbor_list] and [find_neighbors] calls on particles of the
    system.  It does not cover [dWdr]: for [h = 2^-366] and [r2 = h * h]
    (masses and densities 1) the call returns 1 and appends an edge whose
    [D_i_j] is 0 and whose [dWdr] is NaN. *)
Theorem stored_edges_are_numbers :
  (forall (ANN_DIST_INF : float) (ANN_NULL_IDX debug_flag : Z)
          (T : Type) (index : ANNpointSet T)
          (system system' : ParticleSystem T)
          (calls : list call) (out : stdout),
     Forall (fun p => Forall edge_numbers (neighbors p)) (particles system) ->
     run ANN_DIST_INF ANN_NULL_IDX debug_flag system calls
       = Returned system' out ->
     Forall (fun p => Forall edge_numbers (neighbors p)) (particles system'))
  /\
  (exists e : NeighborNode,
     add_to_neighbor_list ANN_DBL_MAX tiny_owner tiny_neighbor tiny_system
       0x1p-732
     = Returned (1%Z, push_neighbor tiny_owner e) []
     /\ edge_numbers e
     /\ D_i_j e = 0
     /\ is_nan (dWdr e) = true).
Proof.
  split.
  - intros ANN_DIST_INF ANN_NULL_IDX debug_flag T index.
    apply (@run_keeps_edge_numbers ANN_DIST_INF ANN_NULL_IDX debug_flag
             T index).
  - exists (edge_of ANN_DBL_MAX tiny_owner tiny_neighbor tiny_system 0x1p-732).
    repeat split; vm_compute; reflexivity.
Qed.

(** ** Distances are not negative *)

(** X8: [particle_dist_sqrd] and [particle_dist] never return a negative
    number: each result is NaN or [>= 0]; and a particle whose coordinates
    are finite is at distance 0 from itself. *)
Theorem particle_dist_nonneg (p q : Particle) :
  (is_nan (particle_dist_sqrd p q) = false ->
   (0 <=? particle_dist_sqrd p q) = true)
  /\ (is_nan (particle_dist p q) = false ->
      (0 <=? particle_dist p q) = true)
  /\ (is_finite (e0 (x p)) = true -> is_finite (e1 (x p)) = true ->
      is_finite (e2 (x p)) = true ->
      particle_dist_sqrd p p = 0 /\ particle_dist p p = 0).
Proof.
  split; [|split].
  - unfold particle_dist_sqrd. cbv zeta. intros Hnan.
    destruct (add_not_nan _ _ Hnan) as [Hab Hc].
    destruct (add_not_nan _ _ Hab) as [Ha Hb].
    apply IEEEsigns.nonneg_leb, IEEEsigns.has_sign_or_zero_of_sign.
    apply IEEEsigns.add_sign; try assumption;
      [|apply IEEEsigns.square_sign; assumption].
    apply IEEEsigns.has_sign_or_zero_of_sign.
    apply IEEEsigns.add_sign; try assumption;
      [|apply IEEEsigns.square_sign; assumption].
    apply IEEEsigns.has_sign_or_zero_of_sign, IEEEsigns.square_sign.
    assumption.
  - unfold particle_dist. cbv zeta. intros Hnan.
    apply IEEEsigns.nonneg_leb, IEEEsigns.sqrt_sign, Hnan.
  - intros H0 H1 H2. unfold particle_dist, particle_dist_sqrd. cbv zeta.
    rewrite (IEEEsigns.sub_self _ H0), (IEEEsigns.sub_self _ H1),
            (IEEEsigns.sub_self _ H2).
    split; reflexivity.
Qed.

Lemma particle_dist_nonneg_witness :
  (0 <=? particle_dist_sqrd PairFacts.ref_owner PairFacts.ref_neighbor) = true
  /\ (0 <=? particle_dist PairFacts.ref_owner PairFacts.ref_neighbor) = true
  /\ particle_dist_sqrd PairFacts.ref_owner PairFacts.ref_owner = 0
  /\ particle_dist PairFacts.ref_owner PairFacts.ref_owner = 0.
Proof.
  destruct (particle_dist_nonneg PairFacts.ref_owner PairFacts.ref_neighbor)
    as (Hsq & Hd & _).
  destruct (particle_dist_nonneg PairFacts.ref_owner PairFacts.ref_owner)
    as (_ & _ & Hself).
  split; [apply Hsq; vm_compute; reflexivity|].
  split; [apply Hd; vm_compute; reflexivity|].
  apply Hself; vm_compute; reflexivity.
Defined.

(** ** On the line of four particles *)

(** The first particle of the line after one search. *)
Definition line_found : Particle :=
  match @find_neighbors ANN_DBL_MAX ANN_NULL 0 _ SearchFacts.line_index
          (particle_at 0 0 1 1) SearchFacts.line_system false with
  | Returned me' _ => me'
  | _ => particle_at 0 0 1 1
  end.

Lemma find_neighbors_appends_witness :
  same_body (particle_at 0 0 1 1) line_found
  /\ exists (queryPt : list float) (added : list NeighborNode),
       @query_point _ (particle_at 0 0 1 1) SearchFacts.line_system
         = Some queryPt
       /\ neighbors line_found = neighbors (particle_at 0 0 1 1) ++ added
       /\ (length added
           <= Z.to_nat (@get_k__approx _ SearchFacts.line_index
                          SearchFacts.line_system))%nat
       /\ Forall (fun e => In (data e) (particles SearchFacts.line_system))
                 added.
Proof.
  apply (@find_neighbors_appends ANN_DBL_MAX ANN_NULL 0 _
           SearchFacts.line_index (particle_at 0 0 1 1) line_found
           SearchFacts.line_system false []).
  vm_compute. reflexivity.
Defined.

Lemma find_neighbors_again_witness :
  exists (added : list NeighborNode) (me2 : Particle),
    neighbors line_found = neighbors (particle_at 0 0 1 1) ++ added
    /\ @find_neighbors ANN_DBL_MAX ANN_NULL 0 _ SearchFacts.line_index
         line_found SearchFacts.line_system false = Returned me2 []
    /\ neighbors me2 = neighbors (particle_at 0 0 1 1) ++ added ++ added
    /\ same_body (particle_at 0 0 1 1) me2.
Proof.
  apply (@find_neighbors_again ANN_DBL_MAX ANN_NULL 0 _
           SearchFacts.line_index (particle_at 0 0 1 1) line_found
           SearchFacts.line_system false []).
  vm_compute. reflexivity.
Defined.

(** The second search doubles the three edges of the first. *)
Example line_found_again :
  match @find_neighbors ANN_DBL_MAX ANN_NULL 0 _ SearchFacts.line_index
          line_found SearchFacts.line_system false with
  | Returned me2 _ => map (fun e => id (data e)) (neighbors me2)
  | _ => []
  end = [0; 1; 2; 0; 1; 2]%Z.
Proof. vm_compute. reflexivity. Qed.

Lemma stored_edges_are_numbers_witness :
  Forall (fun p => Forall edge_numbers (neighbors p))
         (particles SearchFacts.line_after).
Proof.
  apply (proj1 stored_edges_are_numbers ANN_DBL_MAX ANN_NULL 0%Z _
           SearchFacts.line_index SearchFacts.line_system
           SearchFacts.line_after SearchFacts.line_calls []).
  - repeat constructor.
  - vm_compute. reflexivity.
Defined.

Lemma stored_edges_signs_witness :
  Forall (fun p => positive_body p /\ Forall edge_signs (neighbors p))
         (particles SearchFacts.line_after).
Proof.
  apply (@stored_edges_signs ANN_DBL_MAX ANN_NULL 0 _
           SearchFacts.line_index SearchFacts.line_system
           SearchFacts.line_after SearchFacts.line_calls []).
  - vm_compute. reflexivity.
  - repeat (constructor; [split; [split; vm_compute; reflexivity
                                 |constructor]|]).
    constructor.
  - repeat (constructor; [simpl; try exact I;
                          split; vm_compute; reflexivity|]).
    constructor.
  - vm_compute. reflexivity.
Defined.

Lemma add_to_neighbor_list_not_a_distance_witness :
  exists out,
    add_to_neighbor_list ANN_DBL_MAX PairFacts.ref_owner
      PairFacts.ref_neighbor PairFacts.ref_system (-1)
    = Exited 1 out.
Proof.
  eexists.
  apply (@add_to_neighbor_list_not_a_distance ANN_DBL_MAX _
           PairFacts.ref_owner PairFacts.ref_neighbor
           PairFacts.ref_system (-1)).
  right. right. vm_compute. reflexivity.
Defined.

Lemma find_neighbors_in_bounds_witness :
  @find_neighbors ANN_DBL_MAX ANN_NULL 0 _ SearchFacts.line_index
    (particle_at 0 0 1 1) SearchFacts.line_system false <> Undefined.
Proof.
  apply (@find_neighbors_in_bounds ANN_DBL_MAX ANN_NULL 0 _
           SearchFacts.line_index).
  - simpl. lia.
  - intros queryPt Hq. injection Hq as <-.
    replace (nn_idx _) with [0; 1; 2; -1]%Z by (vm_compute; reflexivity).
    repeat (constructor;
            [first [left; reflexivity
                   |right; simpl; lia]|]).
    constructor.
Defined.

Lemma find_neighbors_quiet_witness :
  @quiet _ (particle_at 0 0 1 1) SearchFacts.line_system
    (@find_neighbors ANN_DBL_MAX ANN_NULL 0 _ SearchFacts.line_index
       (particle_at 0 0 1 1) SearchFacts.line_system false).
Proof.
  apply (@find_neighbors_quiet ANN_DBL_MAX ANN_NULL 0 _
           SearchFacts.line_index).
  lia.
Defined.

End EngineFacts.

(* ================================================================== *)
(** * Pairs of zero weight                                             *)
(* ================================================================== *)

Module KernelFacts.

Import Spatialpy.
Local Open Scope float_scope.
#[local] Set Warnings "-inexact-float".

(** ** Zeros in binary64 arithmetic *)

Definition zero_sf (s : spec_float) : Prop :=
  match s with S754_zero _ => True | _ => False end.

Definition is_zero_number (a : float) : Prop := zero_sf (Prim2SF a).

Lemma eqb_zero (a : float) : (a =? 0) = true <-> is_zero_number a.
Proof.
  unfold is_zero_number. rewrite FloatAxioms.eqb_spec.
  change (Prim2SF 0) with (S754_zero false).
  destruct (Prim2SF a) as [s|s| |s m e]; unfold SFeqb; simpl;
    try (destruct s); intuition discriminate.
Qed.

Lemma mul_zero_l (a b : float) :
  is_zero_number a -> is_nan (a * b) = false -> is_zero_number (a * b).
Proof.
  unfold is_zero_number. intros Ha. apply IEEEsigns.nan_or.
  rewrite mul_spec. unfold SF64mul.
  destruct (Prim2SF a) as [s|s| |s m e]; try contradiction.
  destruct (Prim2SF b); simpl; auto.
Qed.

Lemma mul_zero_r (a b : float) :
  is_zero_number b -> is_nan (a * b) = false -> is_zero_number (a * b).
Proof.
  intros Hb Hn. rewrite IEEE.mul_comm in Hn |- *.
  apply mul_zero_l; assumption.
Qed.

Lemma div_zero_l (a b : float) :
  is_zero_number a -> is_nan (a / b) = false -> is_zero_number (a / b).
Proof.
  unfold is_zero_number. intros Ha. apply IEEEsigns.nan_or.
  rewrite div_spec. unfold SF64div.
  destruct (Prim2SF a) as [s|s| |s m e]; try contradiction.
  destruct (Prim2SF b); simpl; auto.
Qed.

Lemma sqrt_zero (a : float) :
  is_zero_number a -> is_zero_number (PrimFloat.sqrt a).
Proof.
  unfold is_zero_number. rewrite sqrt_spec. unfold SF64sqrt.
  destruct (Prim2SF a) as [s|s| |s m e]; try contradiction. trivial.
Qed.

(** The difference of two numbers that compare equal is a zero. *)
Lemma sub_equal (a b : float) :
  (a =? b) = true -> is_nan (a - b) = false -> is_zero_number (a - b).
Proof.
  unfold is_zero_number. rewrite FloatAxioms.eqb_spec. unfold SFeqb.
  intros Heq. apply IEEEsigns.nan_or. rewrite sub_spec. unfold SF64sub.
  destruct (SFcompare (Prim2SF a) (Prim2SF b)) as [[| |]|] eqn:Hc;
    try discriminate.
  destruct (IEEE.SFcompare_Eq _ _ Hc) as [<- | (s & s' & -> & ->)].
  - destruct (Prim2SF a) as [s|s| |s m e]; simpl; auto.
    + destruct s; simpl; auto.
    + destruct s; simpl; auto.
    + rewrite Z.min_id, Z.sub_diag. simpl. auto.
  - destruct s, s'; simpl; auto.
Qed.

Section Weights.

Variable ANN_DIST_INF : float.
Context {T : Type}.

#[local] Abbreviation add_to_neighbor_list :=
  (add_to_neighbor_list ANN_DIST_INF).
#[local] Abbreviation measured_r2 := (measured_r2 ANN_DIST_INF).
#[local] Abbreviation edge_of := (edge_of ANN_DIST_INF).

Ltac nan_parts :=
  repeat match goal with
  | Hn : is_nan (?a * ?b) = false |- _ =>
      lazymatch goal with
      | _ : is_nan a = false, _ : is_nan b = false |- _ => fail
      | _ => destruct (IEEE.mul_not_nan a b Hn)
      end
  | Hn : is_nan (?a / ?b) = false |- _ =>
      lazymatch goal with
      | _ : is_nan a = false, _ : is_nan b = false |- _ => fail
      | _ => destruct (IEEE.div_not_nan a b Hn)
      end
  end.

Lemma D_i_j_closed_form_at_zero (mi mj rhoi rhoj hh r2 : float) :
  is_zero_number r2 ->
  is_nan (D_i_j_closed_form mi mj rhoi rhoj hh r2) = false ->
  is_zero_number (D_i_j_closed_form mi mj rhoi rhoj hh r2).
Proof.
  unfold D_i_j_closed_form. intros Hr2 Hnan. nan_parts.
  apply div_zero_l; [|assumption].
  apply mul_zero_l; [|assumption].
  apply mul_zero_r; assumption.
Qed.

Lemma dWdr_closed_form_at_zero (hh r : float) :
  is_zero_number r ->
  is_nan (dWdr_closed_form hh r) = false ->
  is_zero_number (dWdr_closed_form hh r).
Proof.
  unfold dWdr_closed_form. cbv zeta. intros Hr Hnan. nan_parts.
  apply mul_zero_l; [|assumption].
  apply mul_zero_r; [|assumption].
  apply div_zero_l; [|assumption].
  apply mul_zero_r; assumption.
Qed.

Lemma wfd_closed_form_at_h (hh r : float) :
  (r =? hh) = true ->
  is_nan (wfd_closed_form hh r) = false ->
  is_zero_number (wfd_closed_form hh r).
Proof.
  unfold wfd_closed_form. intros Hrh Hnan. nan_parts.
  assert (Hd : is_zero_number (hh - r)).
  { apply sub_equal.
    - rewrite FloatAxioms.eqb_spec in *. unfold SFeqb in *.
      destruct (SFcompare (Prim2SF r) (Prim2SF hh)) as [[| |]|] eqn:Hc;
        try discriminate.
      rewrite (IEEE.SFcompare_antisym _ _ _ Hc). reflexivity.
    - match goal with
      | Hs : is_nan (?c * (hh - r)) = false |- _ =>
          exact (proj2 (IEEE.mul_not_nan _ _ Hs))
      end. }
  do 5 (apply mul_zero_l; [|assumption]).
  apply mul_zero_r; assumption.
Qed.

Lemma D_i_j_closed_form_at_h (mi mj rhoi rhoj hh r2 : float) :
  (PrimFloat.sqrt r2 =? hh) = true ->
  is_nan (D_i_j_closed_form mi mj rhoi rhoj hh r2) = false ->
  is_zero_number (D_i_j_closed_form mi mj rhoi rhoj hh r2).
Proof.
  unfold D_i_j_closed_form. intros Hrh Hnan. nan_parts.
  apply div_zero_l; [|assumption].
  apply mul_zero_r; [|assumption].
  apply wfd_closed_form_at_h; assumption.
Qed.

(** X9: a pair at distance zero carries no weight.  When the squared
    distance (given, or measured at the marker) is zero and the edge is
    made, its coefficient [D_i_j] is zero and its [dWdr] is zero or NaN; so
    a particle that the index returns as its own neighbour adds nothing to
    the diffusion out of it. *)
Theorem coincident_pair_weightless (me neighbor : Particle)
    (system : ParticleSystem T) (r2 : float) (e : NeighborNode) :
  (measured_r2 me neighbor r2 =? 0) = true ->
  add_to_neighbor_list me neighbor system r2
    = Returned (1%Z, push_neighbor me e) [] ->
  (D_i_j e =? 0) = true
  /\ (dist e =? 0) = true
  /\ (is_nan (dWdr e) = false -> (dWdr e =? 0) = true).
Proof.
  intros Hzero Hadd. apply eqb_zero in Hzero.
  pose proof (EngineFacts.add_to_neighbor_list_returned _ _ _ _ _ _ _ _ Hadd)
    as (_ & [Hsame | (Hpush & _ & Hnan)]).
  - exfalso. apply (f_equal (fun p => length (neighbors p))) in Hsame.
    cbn [neighbors push_neighbor] in Hsame.
    rewrite length_app in Hsame. simpl in Hsame. lia.
  - apply PairFacts.push_neighbor_inj in Hpush. subst e.
    unfold Spatialpy.edge_of in *. cbn [D_i_j dWdr dist] in *.
    split; [|split].
    + apply eqb_zero, D_i_j_closed_form_at_zero; assumption.
    + apply eqb_zero, sqrt_zero. exact Hzero.
    + intros HdW. apply eqb_zero, dWdr_closed_form_at_zero;
        [apply sqrt_zero; exact Hzero | exact HdW].
Qed.

(** X10: a pair on the boundary of the support carries no weight.  When
    the distance [r] equals [h] and the edge is made (the radius test lets
    [r = h] through), its coefficient [D_i_j] is zero. *)
Theorem boundary_pair_weightless (me neighbor : Particle)
    (system : ParticleSystem T) (r2 : float) (e : NeighborNode) :
  (PrimFloat.sqrt (measured_r2 me neighbor r2) =? h system) = true ->
  add_to_neighbor_list me neighbor system r2
    = Returned (1%Z, push_neighbor me e) [] ->
  (D_i_j e =? 0) = true /\ (dist e =? h system) = true.
Proof.
  intros Hrh Hadd.
  pose proof (EngineFacts.add_to_neighbor_list_returned _ _ _ _ _ _ _ _ Hadd)
    as (_ & [Hsame | (Hpush & _ & Hnan)]).
  - exfalso. apply (f_equal (fun p => length (neighbors p))) in Hsame.
    cbn [neighbors push_neighbor] in Hsame.
    rewrite length_app in Hsame. simpl in Hsame. lia.
  - apply PairFacts.push_neighbor_inj in Hpush. subst e.
    unfold Spatialpy.edge_of in *. cbn [D_i_j dist] in *.
    split; [|exact Hrh].
    apply eqb_zero, D_i_j_closed_form_at_h; assumption.
Qed.

End Weights.

Lemma coincident_pair_weightless_witness :
  (D_i_j (edge_of ANN_DBL_MAX PairFacts.ref_owner PairFacts.ref_owner
                  PairFacts.ref_system ANN_DBL_MAX) =? 0) = true
  /\ (dist (edge_of ANN_DBL_MAX PairFacts.ref_owner PairFacts.ref_owner
                    PairFacts.ref_system ANN_DBL_MAX) =? 0) = true
  /\ (is_nan (dWdr (edge_of ANN_DBL_MAX PairFacts.ref_owner
                            PairFacts.ref_owner PairFacts.ref_system
                            ANN_DBL_MAX)) = false ->
      (dWdr (edge_of ANN_DBL_MAX PairFacts.ref_owner PairFacts.ref_owner
                     PairFacts.ref_system ANN_DBL_MAX) =? 0) = true).
Proof.
  apply (@coincident_pair_weightless ANN_DBL_MAX _ PairFacts.ref_owner
           PairFacts.ref_owner PairFacts.ref_system ANN_DBL_MAX).
  - vm_compute. reflexivity.
  - vm_compute. reflexivity.
Defined.

Lemma boundary_pair_weightless_witness :
  (D_i_j (edge_of ANN_DBL_MAX PairFacts.ref_owner PairFacts.ref_neighbor
                  PairFacts.ref_system 1) =? 0) = true
  /\ (dist (edge_of ANN_DBL_MAX PairFacts.ref_owner PairFacts.ref_neighbor
                    PairFacts.ref_system 1) =? h PairFacts.ref_system) = true.
Proof.
  apply (@boundary_pair_weightless ANN_DBL_MAX _ PairFacts.ref_owner
           PairFacts.ref_neighbor PairFacts.ref_system 1).
  - vm_compute. reflexivity.
  - vm_compute. reflexivity.
Defined.

End KernelFacts.

(* ================================================================== *)
(** * The candidates [find_neighbors] visits                           *)
(* ================================================================== *)

Module VisitFacts.

Import Spatialpy.
Local Open Scope float_scope.
#[local] Set Warnings "-inexact-float".

Section Visits.

Variable ANN_DIST_INF : float.
Variable ANN_NULL_IDX : Z.
Variable debug_flag : Z.
Context {T : Type} `{ANNpointSet T}.

#[local] Abbreviation find_neighbors_loop :=
  (find_neighbors_loop ANN_DIST_INF ANN_NULL_IDX debug_flag).
#[local] Abbreviation find_neighbors :=
  (find_neighbors ANN_DIST_INF ANN_NULL_IDX debug_flag).

(** X11: when the search around the particle keeps its contract, with
    [hits] the points within the squared radius [h * h], [find_neighbors]
    offers to [add_to_neighbor_list] the hits, in their order, each with
    the squared distance the search reported, up to the first hit (if any)
    whose index is [ANN_NULL_IDX], and nothing else, in either mode: the
    entries that fill the arrays are never visited. *)
Theorem find_neighbors_visits_hits (me : Particle)
    (system : ParticleSystem T) (use_exact_k : bool)
    (queryPt : list float) (hits : list (Z * float)) :
  query_point me system = Some queryPt ->
  (Z.of_nat (length hits) <= nPoints (kdTree system))%Z ->
  (forall k : Z,
     annkFRSearch (kdTree system) queryPt (h system * h system) k
     = {| pts_in_range := Z.of_nat (length hits);
          nn_idx := pad k ANN_NULL_IDX (map fst hits);
          dists := pad k ANN_DIST_INF (map snd hits) |}) ->
  find_neighbors me system use_exact_k
  = find_neighbors_loop me system (map fst hits) (map snd hits).
Proof.
  intros Hq Hcount Hsearch. unfold Spatialpy.find_neighbors.
  rewrite Hq. unfold get_k__exact, get_k__approx.
  rewrite !Hsearch. cbn [pts_in_range nn_idx dists].
  rewrite !SearchFacts.firstn_pad.
  destruct use_exact_k;
    rewrite !SearchFacts.pad_enough by (rewrite ?length_map; lia);
    rewrite SearchFacts.find_neighbors_loop_padding; reflexivity.
Qed.

End Visits.

Lemma find_neighbors_visits_hits_witness :
  @find_neighbors ANN_DBL_MAX ANN_NULL 0 _ SearchFacts.line_index
    (particle_at 0 0 1 1) SearchFacts.line_system true
  = @find_neighbors_loop ANN_DBL_MAX ANN_NULL 0 _
      (particle_at 0 0 1 1) SearchFacts.line_system
      (map fst (BruteForce.hits (kdTree SearchFacts.line_system)
                  [0; 0; 0] (1 * 1)))
      (map snd (BruteForce.hits (kdTree SearchFacts.line_system)
                  [0; 0; 0] (1 * 1))).
Proof.
  apply (@find_neighbors_visits_hits ANN_DBL_MAX ANN_NULL 0 _
           SearchFacts.line_index (particle_at 0 0 1 1)
           SearchFacts.line_system true [0; 0; 0]).
  - reflexivity.
  - vm_compute. discriminate.
  - intros k. reflexivity.
Defined.

End VisitFacts.
